(** * A shallow embedding of lnsd (the LAN naming daemon) and its properties

    Byte strings ([bytes]) and Python [str] values are both lists of
    integers: bytes in [0, 255], code points for [str].  Python
    exceptions are explicit results. *)

From Stdlib Require Import ZArith Lia.
From Stdlib Require String Ascii.
Import (notations) String.
From stdpp Require Import base list gmap sets.

Open Scope Z_scope.

Abbreviation bytes := (list Z).

(** ** lns/utils.py: io.BytesIO and TransactionalBytesIO *)
Module BytesIO.

(** The observable state of an [io.BytesIO]: its contents
    ([getvalue()]) and its position ([tell()]). *)
Record bio := mk_bio { value : bytes; pos : nat }.

(** [io.BytesIO(initial)] starts at position 0. *)
Definition new (initial : bytes) : bio := mk_bio initial 0.

(** [read(n)] returns at most [n] bytes from the position and moves the
    position past them; at or past the end it returns [b''] and leaves
    the position unchanged. *)
Definition read (n : nat) (s : bio) : bytes * bio :=
  let r := firstn n (skipn (pos s) (value s)) in
  (r, mk_bio (value s) (pos s + length r)%nat).

(** [read()] without a size reads to the end. *)
Definition read_all (s : bio) : bytes * bio :=
  read (length (value s)) s.

(** [write(b)]: overwrite from the position, zero-filling a gap when the
    position is past the end, extend the contents if needed, and move
    the position past the written bytes. *)
Definition write (b : bytes) (s : bio) : bio :=
  match b with
  | [] => s
  | _ =>
    mk_bio (firstn (pos s) (value s)
              ++ replicate (pos s - length (value s)) 0
              ++ b ++ skipn (pos s + length b) (value s))
           (pos s + length b)%nat
  end.

(** [seek(p)] (absolute, [p >= 0]). *)
Definition seek (p : nat) (s : bio) : bio := mk_bio (value s) p.

(** [truncate(size)] cuts the contents; the position is kept. *)
Definition truncate (size : nat) (s : bio) : bio :=
  mk_bio (firstn size (value s)) (pos s).

(** Operations a caller may perform on a stream. *)
Inductive op :=
| ORead (n : nat)
| OWrite (b : bytes)
| OSeek (p : nat)
| OTruncate (size : nat).

Definition run_op (o : op) (s : bio) : bio :=
  match o with
  | ORead n => snd (read n s)
  | OWrite b => write b s
  | OSeek p => seek p s
  | OTruncate n => truncate n s
  end.

Definition run_ops (os : list op) (s : bio) : bio :=
  fold_left (fun s o => run_op o s) os s.

(** [BytesIOTransaction]: the parent's position and contents as taken at
    creation, and the transaction's own stream, a fresh
    [TransactionalBytesIO(self.buffer)] seeked to that position. *)
Record txn := mk_txn { t_position : nat; t_buffer : bytes; t_stream : bio }.

Definition get_transaction (parent : bio) : txn :=
  let position := pos parent in
  let buffer := value parent in
  mk_txn position buffer (seek position (new buffer)).

Definition get_stream (t : txn) : bio := t_stream t.

(** Operations on the transaction's stream touch only that stream. *)
Definition txn_run_ops (os : list op) (t : txn) : txn :=
  mk_txn (t_position t) (t_buffer t) (run_ops os (t_stream t)).

Definition bytes_eqb (a b : bytes) : bool := bool_decide (a = b).

(** [commit]: the parent operations it performs, in order. *)
Definition commit_ops (t : txn) (parent : bio) : list op :=
  (if negb (bytes_eqb (value parent) (value (t_stream t)))
   then [OTruncate 0; OSeek 0; OWrite (value (t_stream t))]
   else [])
  ++ [OSeek (pos (t_stream t))].

Definition commit (t : txn) (parent : bio) : bio :=
  run_ops (commit_ops t parent) parent.

(** [abort] has an empty body: the parent is left as it is. *)
Definition abort (t : txn) (parent : bio) : bio := parent.

End BytesIO.

(** ** Python exceptions and a state/exception monad *)
Module Exc.

Inductive exn :=
| ValueError        (* also UnicodeDecodeError, UnicodeEncodeError, JSONDecodeError *)
| KeyError
| TypeError
| AttributeError
| EOFError
| StructError
| OSError.

Inductive result (A : Type) :=
| Ok (a : A)
| Raise (e : exn).
Arguments Ok {A} a.
Arguments Raise {A} e.

(** A computation over a mutable object of type [S]: it returns or
    raises, and in both cases leaves the object in some state (Python
    keeps the mutations done before the exception). *)
Definition M (S A : Type) := S -> result A * S.

Definition ret {S A} (a : A) : M S A := fun s => (Ok a, s).
Definition raise {S A} (e : exn) : M S A := fun s => (Raise e, s).
Definition bind {S A B} (m : M S A) (k : A -> M S B) : M S B :=
  fun s => match m s with
           | (Ok a, s') => k a s'
           | (Raise e, s') => (Raise e, s')
           end.
Definition get {S} : M S S := fun s => (Ok s, s).
Definition put {S} (s : S) : M S unit := fun _ => (Ok tt, s).
Definition modify {S} (f : S -> S) : M S unit := fun s => (Ok tt, f s).
Definition lift {S A} (r : result A) : M S A :=
  fun s => (r, s).

Module Notations.
Notation "'let!' x := m 'in' k" := (bind m (fun x => k))
  (at level 200, x name, m at level 100, k at level 200).
Notation "'do!' m 'in' k" := (bind m (fun _ => k))
  (at level 200, m at level 100, k at level 200).
End Notations.

End Exc.
Import Exc Exc.Notations.

(** ** lns/net_proto.py: the announce codec and the announce engine *)
Module NetProto.

Definition PACKET_SIZE : nat := 512.
Definition ANNOUNCE_ALARM : Z := 10.
Definition ANNOUNCE_TTL : Z := 30.

(** [bytes.decode('ascii')] and [str.encode('ascii')]. *)
Definition decode_ascii (b : bytes) : result (list Z) :=
  if forallb (fun c => (0 <=? c) && (c <? 128)) b then Ok b else Raise ValueError.
Definition encode_ascii (s : list Z) : result bytes :=
  if forallb (fun c => (0 <=? c) && (c <? 128)) s then Ok s else Raise ValueError.

Definition verify_hostname (hostname_bytes : bytes) : result (list Z) :=
  if (length hostname_bytes =? 0)%nat
     || (PACKET_SIZE - 1 <? length hostname_bytes)%nat
  then Raise ValueError
  else if existsb (fun byte => (byte <? 32) || (126 <? byte)) hostname_bytes
  then Raise ValueError
  else decode_ascii hostname_bytes.

(** The [hostname] field of an [Announce]: a [str], or the raw [bytes]
    that [unserialize] returns when the frame has no NUL byte. *)
Inductive hname :=
| HStr (s : list Z)
| HBytes (b : bytes).

#[global] Instance hname_eq_dec : EqDecision hname.
Proof. solve_decision. Defined.

#[global] Instance hname_countable : Countable hname.
Proof.
  refine (inj_countable'
            (fun h => match h with HStr s => inl s | HBytes b => inr b end)
            (fun x => match x with inl s => HStr s | inr b => HBytes b end) _).
  by intros [].
Defined.

(** [bytes.find(b'\x00')], with [None] for -1. *)
Fixpoint find_byte (x : Z) (b : bytes) : option nat :=
  match b with
  | [] => None
  | y :: r => if y =? x then Some 0%nat else option_map S (find_byte x r)
  end.

Module Announce.
Record t := mk { hostname : hname }.

Definition HEADER : Z := 1.

(** [buffer and buffer[0] == Announce.HEADER] *)
Definition parses (buffer : bytes) : bool :=
  match buffer with
  | [] => false
  | b0 :: _ => b0 =? HEADER
  end.

(** The length check formats its message with [len(buffer,
    PACKET_SIZE)], which itself raises [TypeError]. *)
Definition unserialize (buffer : bytes) : result t :=
  if negb (length buffer =? PACKET_SIZE)%nat then Raise TypeError
  else
    match buffer with
    | [] => Raise TypeError
    | header :: buffer =>
      if negb (header =? HEADER) then Raise ValueError
      else
        match find_byte 0 buffer with
        | None => Ok (mk (HBytes buffer))
        | Some first_nul =>
          match verify_hostname (firstn first_nul buffer) with
          | Ok h => Ok (mk (HStr h))
          | Raise e => Raise e
          end
        end
    end.

(** A [bytes] hostname has no [encode] method. *)
Definition serialize (a : t) : result bytes :=
  match hostname a with
  | HBytes _ => Raise AttributeError
  | HStr s =>
    match encode_ascii s with
    | Raise e => Raise e
    | Ok raw_hostname =>
      if (PACKET_SIZE - 1 <? length raw_hostname)%nat then Raise ValueError
      else Ok (1 :: raw_hostname
                 ++ replicate (PACKET_SIZE - 1 - length raw_hostname) 0)
    end
  end.
End Announce.

Abbreviation ip := (list Z).

(** The fields of [ProtocolHandler] the engine reads and writes.
    [host_to_ips] and [peer_buffers] are [defaultdict]s: a missing key
    reads as the empty set / [b''].  [sent] records the datagrams
    broadcast so far. *)
Record state := mk_state {
  hostname : hname;
  last_announce_time : Z;
  peer_last_announce_time : gmap ip Z;
  host_to_ips : gmap hname (gset ip);
  ip_to_host : gmap ip hname;
  peer_buffers : gmap ip bytes;
  sent : list bytes
}.

Definition init (h : list Z) : state := mk_state (HStr h) 0 ∅ ∅ ∅ ∅ [].

Definition set_last (t : Z) (s : state) : state :=
  mk_state (hostname s) t (peer_last_announce_time s) (host_to_ips s)
           (ip_to_host s) (peer_buffers s) (sent s).
Definition set_plat (m : gmap ip Z) (s : state) : state :=
  mk_state (hostname s) (last_announce_time s) m (host_to_ips s)
           (ip_to_host s) (peer_buffers s) (sent s).
Definition set_hti (m : gmap hname (gset ip)) (s : state) : state :=
  mk_state (hostname s) (last_announce_time s) (peer_last_announce_time s) m
           (ip_to_host s) (peer_buffers s) (sent s).
Definition set_ith (m : gmap ip hname) (s : state) : state :=
  mk_state (hostname s) (last_announce_time s) (peer_last_announce_time s)
           (host_to_ips s) m (peer_buffers s) (sent s).
Definition set_buffers (m : gmap ip bytes) (s : state) : state :=
  mk_state (hostname s) (last_announce_time s) (peer_last_announce_time s)
           (host_to_ips s) (ip_to_host s) m (sent s).
Definition set_sent (l : list bytes) (s : state) : state :=
  mk_state (hostname s) (last_announce_time s) (peer_last_announce_time s)
           (host_to_ips s) (ip_to_host s) (peer_buffers s) l.

(** [self.host_to_ips[name].remove(x)]: the [defaultdict] lookup
    inserts an empty set for a missing key, and [remove] raises
    [KeyError] when [x] is absent. *)
Definition hti_remove (name : hname) (x : ip) : M state unit :=
  fun s =>
    let set := default ∅ (host_to_ips s !! name) in
    if decide (x ∈ set)
    then (Ok tt, set_hti (<[name := set ∖ {[x]}]> (host_to_ips s)) s)
    else (Raise KeyError, set_hti (<[name := set]> (host_to_ips s)) s).

(** [self.host_to_ips[name].add(x)] *)
Definition hti_add (name : hname) (x : ip) : M state unit :=
  modify (fun s =>
    set_hti (<[name := {[x]} ∪ default ∅ (host_to_ips s !! name)]>
               (host_to_ips s)) s).

(** The state update of [handle_messages] for one parsed [Announce]
    from [host] (lines 229-242). *)
Definition record_announce (host : ip) (name : hname) (now : Z) : M state unit :=
  do! modify (fun s => set_plat (<[host := now]> (peer_last_announce_time s)) s) in
  let! s := get in
  do! match ip_to_host s !! host with
      | Some old_hostname => hti_remove old_hostname host
      | None => ret tt
      end in
  do! modify (fun s => set_ith (<[host := name]> (ip_to_host s)) s) in
  hti_add name host.

(** The [while True] loop of [handle_messages] over the transactional
    stream [bs].  Every pass that does not [break] consumes
    [PACKET_SIZE] bytes, so [fuel] above the buffer length never runs
    out.  All packets of one call are stamped with the same [now]. *)
Fixpoint handle_loop (fuel : nat) (host : ip) (now : Z) (bs : BytesIO.bio)
  : M state BytesIO.bio :=
  match fuel with
  | O => ret bs
  | S fuel' =>
    let txn := BytesIO.get_transaction bs in
    let '(packet, stream) := BytesIO.read PACKET_SIZE (BytesIO.get_stream txn) in
    let txn := BytesIO.mk_txn (BytesIO.t_position txn) (BytesIO.t_buffer txn) stream in
    if (length packet <? PACKET_SIZE)%nat then ret (BytesIO.abort txn bs)
    else
      let bs := BytesIO.commit txn bs in
      if negb (Announce.parses packet) then handle_loop fuel' host now bs
      else
        let! message := lift (Announce.unserialize packet) in
        do! record_announce host (Announce.hostname message) now in
        handle_loop fuel' host now bs
  end.

(** [self.peer_buffers[host]] on the [defaultdict(bytes)]. *)
Definition buffers_get (host : ip) : M state bytes :=
  fun s =>
    match peer_buffers s !! host with
    | Some b => (Ok b, s)
    | None => (Ok [], set_buffers (<[host := []]> (peer_buffers s)) s)
    end.

Definition handle_messages (host : ip) (now : Z) : M state unit :=
  let! buffer := buffers_get host in
  let! buffer_stream :=
    handle_loop (S (length buffer)) host now (BytesIO.new buffer) in
  modify (fun s =>
    set_buffers (<[host := fst (BytesIO.read_all buffer_stream)]>
                   (peer_buffers s)) s).

(** [on_message]: the datagram [data] received from [host]. *)
Definition on_message (host : ip) (data : bytes) (now : Z) : M state unit :=
  let! buffer := buffers_get host in
  do! modify (fun s => set_buffers (<[host := buffer ++ data]> (peer_buffers s)) s) in
  handle_messages host now.

(** [del d[k]] on the dictionaries of the engine. *)
Definition del_plat (k : ip) : M state unit :=
  fun s => match peer_last_announce_time s !! k with
           | Some _ => (Ok tt, set_plat (delete k (peer_last_announce_time s)) s)
           | None => (Raise KeyError, s)
           end.
Definition del_buffers (k : ip) : M state unit :=
  fun s => match peer_buffers s !! k with
           | Some _ => (Ok tt, set_buffers (delete k (peer_buffers s)) s)
           | None => (Raise KeyError, s)
           end.
Definition del_ith (k : ip) : M state unit :=
  fun s => match ip_to_host s !! k with
           | Some _ => (Ok tt, set_ith (delete k (ip_to_host s)) s)
           | None => (Raise KeyError, s)
           end.
(** [self.ip_to_host[k]] *)
Definition get_ith (k : ip) : M state hname :=
  fun s => match ip_to_host s !! k with
           | Some n => (Ok n, s)
           | None => (Raise KeyError, s)
           end.

(** One iteration of the [for peer in to_drop] loop. *)
Definition drop_peer (peer : ip) : M state unit :=
  do! del_plat peer in
  do! del_buffers peer in
  let! peer_name := get_ith peer in
  do! del_ith peer in
  hti_remove peer_name peer.

Fixpoint drop_peers (to_drop : list ip) : M state unit :=
  match to_drop with
  | [] => ret tt
  | peer :: rest => do! drop_peer peer in drop_peers rest
  end.

(** The peers whose last announce is more than [ANNOUNCE_TTL] before
    [now] (the list comprehension of lines 180-183). *)
Definition expired (now : Z) (s : state) : list ip :=
  map fst (filter (fun '(_, t) => ANNOUNCE_TTL < now - t)
                  (map_to_list (peer_last_announce_time s))).

(** The TTL sweep, lines 179-193. *)
Definition ttl_sweep (now : Z) : M state unit :=
  let! s := get in
  drop_peers (expired now s).

(** What [sock.sendto] does on this call: the network is up, or the
    socket raises [OSError] ([socket.error] is the same class). *)
Inductive send_outcome := SendOk | SendOSError.

(** [utils.sendto_all] of one datagram. *)
Definition sendto_all (pkt : bytes) (net : send_outcome) : M state unit :=
  match net with
  | SendOk => modify (fun s => set_sent (sent s ++ [pkt]) s)
  | SendOSError => raise OSError
  end.

(** [try: m except (OSError, socket.error): pass] *)
Definition swallow_oserror (m : M state unit) : M state unit :=
  fun s => match m s with
           | (Raise OSError, s') => (Ok tt, s')
           | r => r
           end.

(** [on_announce_timeout]: [t1], [t2] and [t3] are the three readings
    of [time.time()] it takes, in order. *)
Definition on_announce_timeout (t1 t2 t3 : Z) (net : send_outcome)
  : M state unit :=
  let! s := get in
  if t1 - last_announce_time s <? ANNOUNCE_ALARM then ret tt
  else
    do! modify (set_last t2) in
    do! swallow_oserror
          (let! pkt := lift (Announce.serialize (Announce.mk (hostname s))) in
           sendto_all pkt net) in
    ttl_sweep t3.

(** The invariant of the peer map: every [(ip, name)] of [ip_to_host]
    has [ip] in [host_to_ips[name]]; and every peer with an announce
    time has a name and a buffer. *)
Definition peer_inv (s : state) : Prop :=
  (forall (a : ip) (n : hname), ip_to_host s !! a = Some n ->
     a ∈ default ∅ (host_to_ips s !! n))
  /\ (forall (a : ip), is_Some (peer_last_announce_time s !! a) ->
        is_Some (ip_to_host s !! a) /\ is_Some (peer_buffers s !! a)).

(** [query_ip]: [self.ip_to_host.get(ip, None)] *)
Definition query_ip (s : state) (a : ip) : option hname := ip_to_host s !! a.
End NetProto.

(** ** lns/net_proto.py and lns/utils.py: queries, the announce delay and
    the [sendto] loop *)
Module NetQuery.
Import NetProto.

(** [get_time_until_next_announce]; [now] is its reading of [time.time()]. *)
Definition get_time_until_next_announce (now : Z) (s : state) : Z :=
  let time_since_last_announce := now - last_announce_time s in
  Z.max (ANNOUNCE_ALARM - time_since_last_announce) 0.

(** [query_host]: [list(self.host_to_ips[host])].  The [defaultdict]
    lookup stores an empty set under a missing name; [elements] stands
    for the iteration order of the set. *)
Definition query_host (host : hname) : M state (list ip) :=
  fun s => match host_to_ips s !! host with
           | Some ips => (Ok (elements ips), s)
           | None => (Ok [], set_hti (<[host := ∅]> (host_to_ips s)) s)
           end.

(** [get_host_ip_map]: [{host: list(ips) for host, ips in
    self.host_to_ips.items() if ips}] *)
Definition get_host_ip_map (s : state) : gmap hname (list ip) :=
  omap (fun ips => if decide (ips = ∅) then None else Some (elements ips))
       (host_to_ips s).

Section SendtoAll.
Context {sock : Type}.
(** [sock.sendto(buffer, addr)]: the count it returns and the socket
    after the call. *)
Variable sendto : sock -> bytes -> nat * sock.

(** [utils.sendto_all]: [while buffer: sent = sock.sendto(buffer, addr);
    buffer = buffer[sent:]].  The result lists each call as the buffer
    passed and the count returned; [None] when [fuel] runs out. *)
Fixpoint sendto_all_loop (fuel : nat) (buffer : bytes) (so : sock)
  : option (list (bytes * nat) * sock) :=
  match buffer with
  | [] => Some ([], so)
  | _ :: _ =>
    match fuel with
    | O => None
    | S fuel' =>
      let '(sent, so') := sendto so buffer in
      match sendto_all_loop fuel' (drop sent buffer) so' with
      | Some (calls, so'') => Some ((buffer, sent) :: calls, so'')
      | None => None
      end
    end
  end.
End SendtoAll.
End NetQuery.

(** ** lns_ng/reactor.py: event dispatch of [poll] *)
Module Reactor.

Inductive event := READABLE | WRITABLE | ERROR.

#[global] Instance event_eq_dec : EqDecision event.
Proof. solve_decision. Defined.
#[global] Instance event_countable : Countable event.
Proof.
  refine (inj_countable'
            (fun e => match e with READABLE => 0%nat | WRITABLE => 1%nat | ERROR => 2%nat end)
            (fun n => match n with 0%nat => READABLE | 1%nat => WRITABLE | _ => ERROR end) _).
  by intros [].
Defined.

Section Dispatch.
(** Callbacks are opaque values; calling one is recorded in a trace.
    The model covers callbacks that return normally. *)
Context {Cb : Type}.

Inductive call :=
| Dispatch (cb : option Cb) (fd : Z) (ev : event)  (* [None]: [EMPTY_CALLBACK] *)
| Step (cb : Cb).

(** [StepCallbackProcessor.run_step_callbacks]: the set
    [step_callbacks], listed in its iteration order. *)
Definition run_step_callbacks (step_callbacks : list Cb) : list call :=
  map Step step_callbacks.

(** [PollLikeReactor] *)
Record poll_like := mk_poll_like {
  callbacks : gmap (Z * event) Cb;
  step_callbacks : list Cb;
  read_flag : Z;
  write_flag : Z;
  err_flags : list Z
}.

Definition flags_to_event_set (r : poll_like) (flag : Z) : list event :=
  (if Z.land flag (read_flag r) =? 0 then [] else [READABLE])
  ++ (if Z.land flag (write_flag r) =? 0 then [] else [WRITABLE])
  ++ (if existsb (fun e => negb (Z.land flag e =? 0)) (err_flags r)
      then [ERROR] else []).

Definition dispatch_if (r : poll_like) (fd : Z) (es : list event) (ev : event)
  : list call :=
  if decide (ev ∈ es) then [Dispatch (callbacks r !! (fd, ev)) fd ev] else [].

(** [PollLikeReactor.poll], given what [self.pollster.poll] returned. *)
Definition poll_like_poll (r : poll_like) (events : list (Z * Z)) : list call :=
  flat_map (fun '(fd, event_flag) =>
              let event_set := flags_to_event_set r event_flag in
              dispatch_if r fd event_set READABLE
              ++ dispatch_if r fd event_set WRITABLE
              ++ dispatch_if r fd event_set ERROR) events
  ++ run_step_callbacks (step_callbacks r).

(** [SelectReactor] *)
Record select_r := mk_select {
  readers : gmap Z Cb;
  writers : gmap Z Cb;
  errors : gmap Z Cb;
  s_step_callbacks : list Cb
}.

Definition has_clients (r : select_r) : bool :=
  negb (bool_decide (readers r = ∅)) || negb (bool_decide (writers r = ∅))
  || negb (bool_decide (errors r = ∅)).

(** [SelectReactor.poll], given what [select.select] returned (it is
    not called when there are no clients; the sleep is not modelled). *)
Definition select_poll (r : select_r) (rlist wlist xlist : list Z) : list call :=
  if negb (has_clients r) then run_step_callbacks (s_step_callbacks r)
  else
    map (fun fd => Dispatch (readers r !! fd) fd READABLE) rlist
    ++ map (fun fd => Dispatch (writers r !! fd) fd WRITABLE) wlist
    ++ map (fun fd => Dispatch (errors r !! fd) fd ERROR) xlist
    ++ run_step_callbacks (s_step_callbacks r).

(** The events dispatched for [fd], in trace order. *)
Definition events_of (fd : Z) (tr : list call) : list event :=
  flat_map (fun c => match c with
                     | Dispatch _ fd' ev => if decide (fd' = fd) then [ev] else []
                     | Step _ => []
                     end) tr.

Definition is_dispatch (c : call) : Prop :=
  match c with Dispatch _ _ _ => True | Step _ => False end.
End Dispatch.
End Reactor.

(** ** lns_ng/reactor.py: [bind] and [unbind] *)
Module ReactorReg.
Import Reactor.

(** What [to_iterable(events, set)] makes of the [events] argument:
    one event, or a list of them. *)
Inductive events_arg := OneEvent (e : event) | EventList (l : list event).

Definition to_event_set (x : events_arg) : gset event :=
  match x with OneEvent e => {[e]} | EventList l => list_to_set l end.

Section Reg.
Context {Cb : Type}.

(** [PollLikeReactor._event_set_to_flags]; the set is iterated in the
    order of [elements]. *)
Definition event_set_to_flags (r : @poll_like Cb) (events : gset event) : Z :=
  fold_left (fun flag event =>
               match event with
               | READABLE => Z.lor flag (read_flag r)
               | WRITABLE => Z.lor flag (write_flag r)
               | ERROR => fold_left (fun flag err_flag => Z.lor flag err_flag) (err_flags r) flag
               end) (elements events) 0.

(** A [PollLikeReactor] with its [fd_events] map and the registrations
    of its [select.epoll] pollster (fd to flags). *)
Record reg := mk_reg {
  base : @poll_like Cb;
  fd_events : gmap Z (gset event);
  pollster : gmap Z Z
}.

Definition set_callbacks (m : gmap (Z * event) Cb) (s : reg) : reg :=
  mk_reg (@mk_poll_like Cb m (step_callbacks (base s)) (read_flag (base s))
            (write_flag (base s)) (err_flags (base s)))
         (fd_events s) (pollster s).
Definition set_fd_events (m : gmap Z (gset event)) (s : reg) : reg :=
  mk_reg (base s) m (pollster s).
Definition set_pollster (m : gmap Z Z) (s : reg) : reg :=
  mk_reg (base s) (fd_events s) m.

(** [epoll.register] raises [FileExistsError] for a registered fd;
    [epoll.modify] and [epoll.unregister] raise [FileNotFoundError] for
    an fd that is not (both are [OSError]s). *)
Definition pollster_register (fd flags : Z) : M reg unit :=
  fun s => match pollster s !! fd with
           | Some _ => (Raise OSError, s)
           | None => (Ok tt, set_pollster (<[fd := flags]> (pollster s)) s)
           end.
Definition pollster_modify (fd flags : Z) : M reg unit :=
  fun s => match pollster s !! fd with
           | Some _ => (Ok tt, set_pollster (<[fd := flags]> (pollster s)) s)
           | None => (Raise OSError, s)
           end.
Definition pollster_unregister (fd : Z) : M reg unit :=
  fun s => match pollster s !! fd with
           | Some _ => (Ok tt, set_pollster (delete fd (pollster s)) s)
           | None => (Raise OSError, s)
           end.

(** [PollLikeReactor.bind] for an integer [fobj]. *)
Definition poll_bind (fd : Z) (events : events_arg) (callback : Cb) : M reg unit :=
  let events := to_event_set events in
  let! s := get in
  do! match fd_events s !! fd with
      | None =>
        do! modify (set_fd_events (<[fd := events]> (fd_events s))) in
        pollster_register fd (event_set_to_flags (base s) events)
      | Some cur =>
        do! modify (set_fd_events (<[fd := cur ∪ events]> (fd_events s))) in
        pollster_modify fd (event_set_to_flags (base s) (cur ∪ events))
      end in
  modify (fun s =>
    set_callbacks (fold_left (fun m event => <[(fd, event) := callback]> m)
                             (elements events) (callbacks (base s))) s).

(** [for event in events: del self.callbacks[fd, event]] *)
Fixpoint del_callbacks (fd : Z) (events : list event) : M reg unit :=
  match events with
  | [] => ret tt
  | event :: rest =>
    fun s => match callbacks (base s) !! (fd, event) with
             | None => (Raise KeyError, s)
             | Some _ => del_callbacks fd rest
                           (set_callbacks (delete (fd, event) (callbacks (base s))) s)
             end
  end.

(** [PollLikeReactor.unbind] for an integer [fobj]; [None] for
    [events=None]. *)
Definition poll_unbind (fd : Z) (events : option events_arg) : M reg unit :=
  let! s := get in
  match fd_events s !! fd with
  | None => raise KeyError
  | Some cur =>
    let events := match events with None => cur | Some x => to_event_set x end in
    let remaining_events := cur ∖ events in
    do! modify (set_fd_events (<[fd := remaining_events]> (fd_events s))) in
    do! (if decide (remaining_events = ∅) then
           do! pollster_unregister fd in
           modify (fun s => set_fd_events (delete fd (fd_events s)) s)
         else pollster_modify fd (event_set_to_flags (base s) remaining_events)) in
    del_callbacks fd (elements events)
  end.

(** [SelectReactor.bind] and [SelectReactor.unbind] for an integer
    [fobj]. *)
Definition select_bind (fd : Z) (events : events_arg) (callback : Cb)
    (r : @select_r Cb) : @select_r Cb :=
  let events := to_event_set events in
  @mk_select Cb
    (if decide (READABLE ∈ events) then <[fd := callback]> (readers r) else readers r)
    (if decide (WRITABLE ∈ events) then <[fd := callback]> (writers r) else writers r)
    (if decide (ERROR ∈ events) then <[fd := callback]> (errors r) else errors r)
    (s_step_callbacks r).

Definition select_unbind (fd : Z) (events : option events_arg)
    (r : @select_r Cb) : @select_r Cb :=
  let events := match events with
                 | None => {[READABLE; WRITABLE; ERROR]}
                 | Some x => to_event_set x
                 end in
  @mk_select Cb
    (if decide (READABLE ∈ events /\ is_Some (readers r !! fd))
     then delete fd (readers r) else readers r)
    (if decide (WRITABLE ∈ events /\ is_Some (writers r !! fd))
     then delete fd (writers r) else writers r)
    (if decide (ERROR ∈ events /\ is_Some (errors r !! fd))
     then delete fd (errors r) else errors r)
    (s_step_callbacks r).
End Reg.
End ReactorReg.

(** ** lns_ng/control_proto.py: the control codec and the control engine *)
Module Control.

(** *** UTF-8, as [str.encode('utf-8')] and strict [bytes.decode('utf-8')] *)

Definition in_range (lo hi x : Z) : bool := (lo <=? x) && (x <=? hi).

(** For a lead byte of a multi-byte sequence: the number of
    continuation bytes and the allowed range of the first one. *)
Definition lead_info (b0 : Z) : option (nat * Z * Z) :=
  if in_range 194 223 b0 then Some (1%nat, 128, 191)
  else if b0 =? 224 then Some (2%nat, 160, 191)
  else if in_range 225 236 b0 then Some (2%nat, 128, 191)
  else if b0 =? 237 then Some (2%nat, 128, 159)
  else if in_range 238 239 b0 then Some (2%nat, 128, 191)
  else if b0 =? 240 then Some (3%nat, 144, 191)
  else if in_range 241 243 b0 then Some (3%nat, 128, 191)
  else if b0 =? 244 then Some (3%nat, 128, 143)
  else None.

Definition cont (b : Z) : bool := in_range 128 191 b.

Definition rcons (c : Z) (r : result (list Z)) : result (list Z) :=
  match r with Ok l => Ok (c :: l) | Raise e => Raise e end.

Fixpoint decode_utf8 (l : bytes) : result (list Z) :=
  match l with
  | [] => Ok []
  | b0 :: r =>
    if b0 <? 128 then rcons b0 (decode_utf8 r)
    else
      match lead_info b0, r with
      | Some (1%nat, lo, hi), b1 :: r1 =>
        if in_range lo hi b1
        then rcons (Z.lor (Z.shiftl (Z.land b0 31) 6) (Z.land b1 63)) (decode_utf8 r1)
        else Raise ValueError
      | Some (2%nat, lo, hi), b1 :: b2 :: r2 =>
        if in_range lo hi b1 && cont b2
        then rcons (Z.lor (Z.shiftl (Z.land b0 15) 12)
                      (Z.lor (Z.shiftl (Z.land b1 63) 6) (Z.land b2 63)))
                   (decode_utf8 r2)
        else Raise ValueError
      | Some (3%nat, lo, hi), b1 :: b2 :: b3 :: r3 =>
        if in_range lo hi b1 && cont b2 && cont b3
        then rcons (Z.lor (Z.shiftl (Z.land b0 7) 18)
                      (Z.lor (Z.shiftl (Z.land b1 63) 12)
                         (Z.lor (Z.shiftl (Z.land b2 63) 6) (Z.land b3 63))))
                   (decode_utf8 r3)
        else Raise ValueError
      | _, _ => Raise ValueError
      end
  end.

(** Lone surrogates cannot be encoded. *)
Definition encode_char (c : Z) : result bytes :=
  if c <? 128 then Ok [c]
  else if c <? 2048 then
    Ok [Z.lor 192 (Z.shiftr c 6); Z.lor 128 (Z.land c 63)]
  else if in_range 55296 57343 c then Raise ValueError
  else if c <? 65536 then
    Ok [Z.lor 224 (Z.shiftr c 12); Z.lor 128 (Z.land (Z.shiftr c 6) 63);
        Z.lor 128 (Z.land c 63)]
  else
    Ok [Z.lor 240 (Z.shiftr c 18); Z.lor 128 (Z.land (Z.shiftr c 12) 63);
        Z.lor 128 (Z.land (Z.shiftr c 6) 63); Z.lor 128 (Z.land c 63)].

Fixpoint encode_utf8 (s : list Z) : result bytes :=
  match s with
  | [] => Ok []
  | c :: r =>
    match encode_char c, encode_utf8 r with
    | Ok b, Ok rb => Ok (b ++ rb)
    | Raise e, _ => Raise e
    | _, Raise e => Raise e
    end
  end.

(** *** Python values that cross the JSON boundary *)
#[local] Set Warnings "-register-all".
Inductive pyval :=
| PNone
| PBool (b : bool)
| PInt (z : Z)
| PStr (s : list Z)
| PBytes (b : bytes)
| PList (l : list pyval)
| PDict (d : list (list Z * pyval)).   (* [str] keys, each once *)

(** A [str] literal of the source. *)
Definition lit (s : String.string) : list Z :=
  map (fun a => Z.of_nat (Ascii.nat_of_ascii a)) (String.list_ascii_of_string s).

(** [struct.pack('H', n)] / [struct.unpack('H', b)] in native byte order. *)
Inductive byte_order := LittleEndian | BigEndian.

Definition pack_H (bo : byte_order) (n : Z) : result bytes :=
  if in_range 0 65535 n then
    match bo with
    | LittleEndian => Ok [Z.land n 255; Z.shiftr n 8]
    | BigEndian => Ok [Z.shiftr n 8; Z.land n 255]
    end
  else Raise StructError.

Definition unpack_H (bo : byte_order) (b0 b1 : Z) : Z :=
  match bo with
  | LittleEndian => b0 + 256 * b1
  | BigEndian => 256 * b0 + b1
  end.

Definition bind_r {A B} (r : result A) (k : A -> result B) : result B :=
  match r with Ok a => k a | Raise e => Raise e end.

Section Codec.
(** The [json] module: [json.dumps] gives a [str] (or raises
    [TypeError] on a value it cannot serialise), [json.loads] parses
    one (or raises [ValueError]), and [native] is the platform's byte
    order. *)
Variable json_dumps : pyval -> result (list Z).
Variable json_loads : list Z -> result pyval.
Variable native : byte_order.

Definition length_encode_json (data : pyval) : result bytes :=
  bind_r (json_dumps data) (fun s =>
  bind_r (encode_utf8 s) (fun json_bytes =>
  bind_r (pack_H native (Z.of_nat (length json_bytes))) (fun length_header =>
  Ok (length_header ++ json_bytes)))).

Definition get_length_encoded_json : M BytesIO.bio pyval :=
  fun stream =>
    let '(length_bytes, stream) := BytesIO.read 2 stream in
    match length_bytes with
    | [b0; b1] =>
      let len := unpack_H native b0 b1 in
      let '(json_bytes, stream) := BytesIO.read (Z.to_nat len) stream in
      if negb (length json_bytes =? Z.to_nat len)%nat then (Raise EOFError, stream)
      else (bind_r (decode_utf8 json_bytes) json_loads, stream)
    | _ => (Raise EOFError, stream)
    end.

(** *** Message validation helpers *)

Definition is_space (c : Z) : bool :=
  (c =? 32) || in_range 9 13 c.
Definition is_digit (c : Z) : bool := in_range 48 57 c.

Fixpoint drop_spaces (l : list Z) : list Z :=
  match l with
  | c :: r => if is_space c then drop_spaces r else l
  | [] => []
  end.

(** The digits of [int(text)]: ASCII digits, single underscores
    between digits. *)
Fixpoint parse_digits (l : list Z) (acc : Z) (prev_digit : bool) : option Z :=
  match l with
  | [] => if prev_digit then Some acc else None
  | c :: r =>
    if is_digit c then parse_digits r (acc * 10 + (c - 48)) true
    else if (c =? 95) && prev_digit then parse_digits r acc false
    else None
  end.

(** [int(text)] for a [str] (ASCII whitespace and digits). *)
Definition py_int (text : list Z) : result Z :=
  let t := rev (drop_spaces (rev (drop_spaces text))) in
  let '(sign, digits) :=
    match t with
    | c :: r => if c =? 45 then (-1, r) else if c =? 43 then (1, r) else (1, t)
    | [] => (1, t)
    end in
  match parse_digits digits 0 false with
  | Some n => Ok (sign * n)
  | None => Raise ValueError
  end.

(** [text.split('.')] *)
Fixpoint split_on (sep : Z) (l : list Z) : list (list Z) :=
  match l with
  | [] => [[]]
  | c :: r =>
    if c =? sep then [] :: split_on sep r
    else match split_on sep r with
         | w :: ws => (c :: w) :: ws
         | [] => [[c]]
         end
  end.

Fixpoint all_r {A} (f : A -> result unit) (l : list A) : result unit :=
  match l with
  | [] => Ok tt
  | x :: r => bind_r (f x) (fun _ => all_r f r)
  end.

Definition verify_ipv4_address (text : pyval) : result unit :=
  match text with
  | PStr t =>
    let octets := split_on 46 t in
    if negb (length octets =? 4)%nat then Raise ValueError
    else all_r (fun octet =>
           bind_r (py_int octet) (fun int_octet =>
             if (int_octet <? 0) || (255 <? int_octet) then Raise ValueError
             else Ok tt)) octets
  | PBytes _ => Raise TypeError
  | _ => Raise AttributeError
  end.

(** [data[k]] for a [str] key. *)
Definition dget (k : list Z) (data : pyval) : result pyval :=
  match data with
  | PDict d =>
    match list_find (fun kv => kv.1 = k) d with
    | Some (_, (_, v)) => Ok v
    | None => Raise KeyError
    end
  | _ => Raise TypeError
  end.

Definition is_lit (v : pyval) (s : String.string) : bool :=
  match v with PStr t => bool_decide (t = lit s) | _ => false end.
Arguments is_lit v s%_string_scope.

(** Iterating over a value ([for x in v]). *)
Definition iterate (v : pyval) : result (list pyval) :=
  match v with
  | PList l => Ok l
  | PStr s => Ok (map (fun c => PStr [c]) s)
  | PBytes b => Ok (map PInt b)
  | PDict d => Ok (map (fun kv => PStr kv.1) d)
  | _ => Raise TypeError
  end.

(** [len(v)] and [v[0]] *)
Definition py_len (v : pyval) : result nat :=
  match v with
  | PList l => Ok (length l)
  | PStr s => Ok (length s)
  | PBytes b => Ok (length b)
  | PDict d => Ok (length d)
  | _ => Raise TypeError
  end.
Definition py_index0 (v : pyval) : result pyval :=
  match v with
  | PList (x :: _) => Ok x
  | PStr (c :: _) => Ok (PStr [c])
  | PBytes (b :: _) => Ok (PInt b)
  | PDict _ => Raise KeyError
  | PList [] | PStr [] | PBytes [] => Raise ValueError  (* IndexError *)
  | _ => Raise TypeError
  end.

(** [hostname.encode('ascii')] followed by [verify_hostname]. *)
Definition verify_hostname_value (h : pyval) : result unit :=
  match h with
  | PStr s => bind_r (NetProto.encode_ascii s) (fun b =>
              bind_r (NetProto.verify_hostname b) (fun _ => Ok tt))
  | _ => Raise AttributeError
  end.

(** *** The message classes *)
Inductive message :=
| Host (hostname : pyval)
| IP (ip_addrs : pyval)
| GetAll
| NameIPMapping (host_to_ips : pyval)
| Quit.

Inductive msg_class := CHost | CIP | CGetAll | CNameIPMapping | CQuit.

(** [get_message_class]: every [parses] reads [data['type']]. *)
Definition get_message_class (data : pyval) : result msg_class :=
  bind_r (dget (lit "type") data) (fun t =>
    if is_lit t "name"%string then Ok CHost
    else if is_lit t "ip"%string then Ok CIP
    else if is_lit t "get-all"%string then Ok CGetAll
    else if is_lit t "nameipmapping"%string then Ok CNameIPMapping
    else if is_lit t "quit"%string then Ok CQuit
    else Raise ValueError).

Definition type_name (c : msg_class) : String.string :=
  match c with
  | CHost => "name" | CIP => "ip" | CGetAll => "get-all"
  | CNameIPMapping => "nameipmapping" | CQuit => "quit"
  end%string.

Definition unserialize (c : msg_class) (data : pyval) : result message :=
  bind_r (dget (lit "type") data) (fun t =>
  if negb (is_lit t (type_name c)) then Raise ValueError
  else
    match c with
    | CHost =>
      bind_r (dget (lit "hostname") data) (fun h =>
      match h with
      | PNone => Ok (Host h)
      | _ => bind_r (verify_hostname_value h) (fun _ => Ok (Host h))
      end)
    | CIP =>
      bind_r (dget (lit "ip_addrs") data) (fun addrs =>
      bind_r (iterate addrs) (fun l =>
      bind_r (all_r verify_ipv4_address l) (fun _ => Ok (IP addrs))))
    | CGetAll => Ok GetAll
    | CNameIPMapping =>
      bind_r (dget (lit "name_ips") data) (fun m =>
      match m with
      | PDict d =>
        bind_r (all_r (fun kv =>
                  bind_r (verify_hostname_value (PStr kv.1)) (fun _ =>
                  bind_r (iterate kv.2) (fun ips =>
                  all_r verify_ipv4_address ips))) d) (fun _ =>
        Ok (NameIPMapping m))
      | _ => Raise AttributeError
      end)
    | CQuit => Ok Quit
    end).

Definition serialize (m : message) : result bytes :=
  match m with
  | Host h =>
    bind_r (match h with PNone => Ok tt | _ => verify_hostname_value h end) (fun _ =>
    length_encode_json (PDict [(lit "type", PStr (lit "name")); (lit "hostname", h)]))
  | IP a =>
    length_encode_json (PDict [(lit "type", PStr (lit "ip")); (lit "ip_addrs", a)])
  | GetAll => length_encode_json (PDict [(lit "type", PStr (lit "get-all"))])
  | NameIPMapping h =>
    length_encode_json (PDict [(lit "type", PStr (lit "nameipmapping"));
                               (lit "name_ips", h)])
  | Quit => length_encode_json (PDict [(lit "type", PStr (lit "quit"))])
  end.
End Codec.

(** *** The control engine ([ProtocolHandler]) *)

(** The interface the engine uses of its network handler. *)
Class NetworkHandler (N : Type) := {
  query_host : N -> pyval -> pyval;
  query_ip : N -> pyval -> pyval;
  get_host_ip_map : N -> pyval
}.

(** The announce engine as a network handler.  [IP.unserialize] only
    lets [str] addresses through, so other keys are not looked up.
    [query_host]'s [defaultdict] lookup also inserts an empty set,
    which is not visible to the control engine. *)
#[global] Instance net_proto_handler : NetworkHandler NetProto.state := {
  query_host s h :=
    let key := match h with PStr n => Some (NetProto.HStr n)
                          | PBytes b => Some (NetProto.HBytes b)
                          | _ => None end in
    PList (map PStr (elements (default ∅ (key ≫= fun k => NetProto.host_to_ips s !! k))));
  query_ip s a :=
    match a with
    | PStr t =>
      match NetProto.query_ip s t with
      | Some (NetProto.HStr h) => PStr h
      | Some (NetProto.HBytes b) => PBytes b
      | None => PNone
      end
    | _ => PNone
    end;
  get_host_ip_map s :=
    PDict (omap (fun (p : NetProto.hname * gset NetProto.ip) =>
             let '(h, ips) := p in
             match h with
             | NetProto.HStr n =>
               if decide (ips = ∅) then None else Some (n, PList (map PStr (elements ips)))
             | NetProto.HBytes _ => None
             end) (map_to_list (NetProto.host_to_ips s)))
}.

(** The per-client part of the engine: the client buffers (their
    domain is the set of connected clients), the [done] flag, and what
    was sent to each client. *)
Record cstate := mk_cstate {
  done : bool;
  client_buffers : gmap Z bytes;
  outbox : list (Z * bytes)
}.

Definition set_done (s : cstate) : cstate :=
  mk_cstate true (client_buffers s) (outbox s).
Definition sendall (fd : Z) (b : bytes) (s : cstate) : cstate :=
  mk_cstate (done s) (client_buffers s) (outbox s ++ [(fd, b)]).

Section Engine.
Variable json_dumps : pyval -> result (list Z).
Variable json_loads : list Z -> result pyval.
Variable native : byte_order.
Context {N : Type} `{NetworkHandler N}.
Variable network_handler : N.

(** [handle_message]: the reply it builds, if any. *)
Definition reply_to (message : message) : result (option Control.message) :=
  match message with
  | Host h => Ok (Some (IP (query_host network_handler h)))
  | IP ip_addrs =>
    bind_r (py_len ip_addrs) (fun n =>
    if (n =? 1)%nat
    then bind_r (py_index0 ip_addrs) (fun a =>
         Ok (Some (Host (query_ip network_handler a))))
    else Ok None)
  | GetAll => Ok (Some (NameIPMapping (get_host_ip_map network_handler)))
  | NameIPMapping _ => Ok None
  | Quit => Ok None
  end.

Definition handle_message (client : Z) (message : message) : M cstate unit :=
  let! reply := lift (reply_to message) in
  do! (match message with Quit => modify set_done | _ => ret tt end) in
  match reply with
  | Some r =>
    let! b := lift (serialize json_dumps native r) in
    modify (sendall client b)
  | None => ret tt
  end.




End Engine.
End Control.

(** ** The [json] module on the values the control protocol carries

    A model of [json.dumps] (default separators, [ensure_ascii]) and
    of [json.loads] on null, booleans, integers, strings, lists and
    objects; used to run the control engine on concrete inputs. *)
Module JsonModel.
Import Control.

Definition hex_digit (n : Z) : Z := if n <? 10 then 48 + n else 87 + n.

Definition u_escape (c : Z) : list Z :=
  [92; 117; hex_digit (Z.shiftr c 12); hex_digit (Z.land (Z.shiftr c 8) 15);
   hex_digit (Z.land (Z.shiftr c 4) 15); hex_digit (Z.land c 15)].

(** One character of a string literal, as [json.dumps] writes it. *)
Definition escape_char (c : Z) : list Z :=
  if c =? 34 then [92; 34]
  else if c =? 92 then [92; 92]
  else if c =? 10 then [92; 110]
  else if c =? 13 then [92; 114]
  else if c =? 9 then [92; 116]
  else if c =? 8 then [92; 98]
  else if c =? 12 then [92; 102]
  else if in_range 32 126 c then [c]
  else if c <? 65536 then u_escape c
  else let v := c - 65536 in
       u_escape (55296 + Z.shiftr v 10) ++ u_escape (56320 + Z.land v 1023).

Definition dump_str (s : list Z) : list Z := [34] ++ flat_map escape_char s ++ [34].

Fixpoint digits_of (fuel : nat) (n : Z) : list Z :=
  match fuel with
  | O => []
  | S f => (if n <? 10 then [] else digits_of f (n / 10)) ++ [48 + n mod 10]
  end.

Definition dump_int (z : Z) : list Z :=
  if z <? 0 then 45 :: digits_of (Z.to_nat (Z.log2_up (- z) + 1)) (- z)
  else digits_of (Z.to_nat (Z.log2_up z + 1)) z.

Fixpoint join (sep : list Z) (l : list (list Z)) : list Z :=
  match l with
  | [] => []
  | [x] => x
  | x :: r => x ++ sep ++ join sep r
  end.

Fixpoint dumps (v : pyval) : result (list Z) :=
  match v with
  | PNone => Ok (lit "null")
  | PBool true => Ok (lit "true")
  | PBool false => Ok (lit "false")
  | PInt z => Ok (dump_int z)
  | PStr s => Ok (dump_str s)
  | PBytes _ => Raise TypeError
  | PList l =>
    let fix go (l : list pyval) : result (list (list Z)) :=
      match l with
      | [] => Ok []
      | x :: r => bind_r (dumps x) (fun a => bind_r (go r) (fun b => Ok (a :: b)))
      end in
    bind_r (go l) (fun items => Ok ([91] ++ join [44; 32] items ++ [93]))
  | PDict d =>
    let fix go (d : list (list Z * pyval)) : result (list (list Z)) :=
      match d with
      | [] => Ok []
      | (k, x) :: r =>
        bind_r (dumps x) (fun a => bind_r (go r) (fun b =>
          Ok ((dump_str k ++ [58; 32] ++ a) :: b)))
      end in
    bind_r (go d) (fun items => Ok ([123] ++ join [44; 32] items ++ [125]))
  end.

(** *** The parser *)
Definition ws (c : Z) : bool := (c =? 32) || (c =? 9) || (c =? 10) || (c =? 13).

Fixpoint skip_ws (s : list Z) : list Z :=
  match s with c :: r => if ws c then skip_ws r else s | [] => [] end.

Fixpoint starts_with (p s : list Z) : option (list Z) :=
  match p, s with
  | [], _ => Some s
  | a :: p', b :: s' => if a =? b then starts_with p' s' else None
  | _, _ => None
  end.

Definition hex_val (c : Z) : option Z :=
  if in_range 48 57 c then Some (c - 48)
  else if in_range 97 102 c then Some (c - 87)
  else if in_range 65 70 c then Some (c - 55)
  else None.

Fixpoint parse_str (s : list Z) : option (list Z * list Z) :=
  match s with
  | [] => None
  | 34 :: r => Some ([], r)
  | 92 :: e :: r =>
    let k c := option_map (fun '(t, r') => (c :: t, r')) in
    if e =? 117 then
      match r with
      | h1 :: h2 :: h3 :: h4 :: r' =>
        match hex_val h1, hex_val h2, hex_val h3, hex_val h4 with
        | Some a, Some b, Some c, Some d =>
          k (((a * 16 + b) * 16 + c) * 16 + d) (parse_str r')
        | _, _, _, _ => None
        end
      | _ => None
      end
    else if e =? 110 then k 10 (parse_str r)
    else if e =? 116 then k 9 (parse_str r)
    else if e =? 114 then k 13 (parse_str r)
    else if e =? 98 then k 8 (parse_str r)
    else if e =? 102 then k 12 (parse_str r)
    else if (e =? 34) || (e =? 92) || (e =? 47) then k e (parse_str r)
    else None
  | c :: r => if c <? 32 then None else option_map (fun '(t, r') => (c :: t, r')) (parse_str r)
  end.

Fixpoint parse_nat (s : list Z) (acc : Z) : Z * list Z :=
  match s with
  | c :: r => if in_range 48 57 c then parse_nat r (acc * 10 + (c - 48)) else (acc, s)
  | [] => (acc, [])
  end.

Definition parse_int (s : list Z) : option (Z * list Z) :=
  let '(neg, s) := match s with 45 :: r => (true, r) | _ => (false, s) end in
  match s with
  | c :: _ => if in_range 48 57 c
              then let '(n, r) := parse_nat s 0 in Some (if neg then - n else n, r)
              else None
  | [] => None
  end.

Fixpoint parse_value (fuel : nat) (s : list Z) : option (pyval * list Z) :=
  match fuel with
  | O => None
  | S f =>
    let s := skip_ws s in
    match s with
    | 110 :: _ => option_map (fun r => (PNone, r)) (starts_with (lit "null") s)
    | 116 :: _ => option_map (fun r => (PBool true, r)) (starts_with (lit "true") s)
    | 102 :: _ => option_map (fun r => (PBool false, r)) (starts_with (lit "false") s)
    | 34 :: r => option_map (fun '(t, r') => (PStr t, r')) (parse_str r)
    | 91 :: r =>
      match skip_ws r with
      | 93 :: r' => Some (PList [], r')
      | _ =>
        let fix items (g : nat) (s : list Z) : option (list pyval * list Z) :=
          match g with
          | O => None
          | S g' =>
            match parse_value f s with
            | Some (v, r) =>
              match skip_ws r with
              | 44 :: r' => option_map (fun '(vs, r'') => (v :: vs, r'')) (items g' r')
              | 93 :: r' => Some ([v], r')
              | _ => None
              end
            | None => None
            end
          end in
        option_map (fun '(vs, r') => (PList vs, r')) (items f r)
      end
    | 123 :: r =>
      match skip_ws r with
      | 125 :: r' => Some (PDict [], r')
      | _ =>
        let fix members (g : nat) (s : list Z) : option (list (list Z * pyval) * list Z) :=
          match g with
          | O => None
          | S g' =>
            match skip_ws s with
            | 34 :: s1 =>
              match parse_str s1 with
              | Some (k, s2) =>
                match skip_ws s2 with
                | 58 :: s3 =>
                  match parse_value f s3 with
                  | Some (v, r) =>
                    match skip_ws r with
                    | 44 :: r' => option_map (fun '(kvs, r'') => ((k, v) :: kvs, r''))
                                             (members g' r')
                    | 125 :: r' => Some ([(k, v)], r')
                    | _ => None
                    end
                  | None => None
                  end
                | _ => None
                end
              | None => None
              end
            | _ => None
            end
          end in
        option_map (fun '(kvs, r') => (PDict kvs, r')) (members f r)
      end
    | _ => option_map (fun '(z, r) => (PInt z, r)) (parse_int s)
    end
  end.

Definition loads (s : list Z) : result pyval :=
  match parse_value (S (length s)) s with
  | Some (v, r) => if bool_decide (skip_ws r = []) then Ok v else Raise ValueError
  | None => Raise ValueError
  end.
End JsonModel.

(** * Properties *)

(** ** The transactional stream *)
Module TransactionFacts.
Import BytesIO.

Lemma write_into_empty (b : bytes) :
  value (write b (mk_bio [] 0)) = b.
Proof. destruct b; simpl; [done|]. by rewrite app_nil_r. Qed.

(** C6: whatever reads, writes and seeks [os] do on the transaction's
    stream, aborting leaves the parent with the position and contents
    it had when the transaction was created; committing gives the
    parent the stream's contents and position, and when the contents
    are the parent's, the commit only seeks the parent. *)
Theorem transaction_abort_commit (parent : bio) (os : list op) :
  let t := txn_run_ops os (get_transaction parent) in
  (value (abort t parent) = value parent /\ pos (abort t parent) = pos parent
   /\ value (abort t parent) = t_buffer t /\ pos (abort t parent) = t_position t)
  /\ value (commit t parent) = value (get_stream t)
  /\ pos (commit t parent) = pos (get_stream t)
  /\ (value parent = value (get_stream t) ->
      commit_ops t parent = [OSeek (pos (get_stream t))]).
Proof.
  intros t. split; [repeat split; reflexivity|].
  unfold commit, commit_ops, bytes_eqb, get_stream.
  case_bool_decide as Heq; simpl.
  - split; [done|]. split; [done|]. intros _. reflexivity.
  - split; [apply write_into_empty|]. split; [reflexivity|].
    intros Hv. contradiction.
Qed.
End TransactionFacts.

(** ** The announce codec *)
Module AnnounceFacts.
Import NetProto.

Definition printable (x : Z) : Prop := 32 <= x <= 126.

Lemma existsb_unprintable_false (b : bytes) :
  existsb (fun byte => (byte <? 32) || (126 <? byte)) b = false
  <-> Forall printable b.
Proof.
  induction b as [|x b IH]; simpl; [split; auto|].
  rewrite orb_false_iff, Forall_cons, IH, orb_false_iff, !Z.ltb_ge.
  unfold printable. intuition lia.
Qed.

Lemma decode_ascii_printable (b : bytes) :
  Forall printable b -> decode_ascii b = Ok b.
Proof.
  intros Hb. unfold decode_ascii.
  replace (forallb _ b) with true; [done|].
  symmetry. apply forallb_forall. intros x Hx.
  rewrite Forall_forall in Hb. apply list_elem_of_In, Hb in Hx.
  unfold printable in Hx. apply andb_true_iff; split; lia.
Qed.

(** C2 (as the code has it): [verify_hostname] returns its argument,
    decoded, exactly when it is non-empty, at most 511 bytes long and
    every byte is in [32, 126]; otherwise it raises [ValueError]. *)
Theorem verify_hostname_accepts (b : bytes) :
  verify_hostname b =
    if decide ((0 < length b <= 511)%nat /\ Forall printable b)
    then Ok b else Raise ValueError.
Proof.
  unfold verify_hostname, PACKET_SIZE; simpl.
  destruct (decide _) as [[Hlen Hp]|Hn].
  - replace ((length b =? 0)%nat || (511 <? length b)%nat) with false
      by (symmetry; apply orb_false_iff; split;
          [apply Nat.eqb_neq | apply Nat.ltb_ge]; lia).
    apply existsb_unprintable_false in Hp as Hp'. rewrite Hp'.
    by apply decode_ascii_printable.
  - destruct ((length b =? 0)%nat || (511 <? length b)%nat) eqn:Hl; [done|].
    apply orb_false_iff in Hl as [Hl1 Hl2].
    apply Nat.eqb_neq in Hl1. apply Nat.ltb_ge in Hl2.
    destruct (existsb _ b) eqn:He; [done|].
    apply existsb_unprintable_false in He. exfalso. apply Hn. split; [lia|done].
Qed.

(** C2 fails at the hostname made of one space: it is accepted. *)
Lemma verify_hostname_space : verify_hostname [32] = Ok [32].
Proof. reflexivity. Qed.

Lemma find_byte_app (h r : bytes) :
  Forall printable h -> find_byte 0 (h ++ 0 :: r) = Some (length h).
Proof.
  induction h as [|x h IH]; simpl; [done|].
  intros [Hx Hh]%Forall_cons. unfold printable in Hx.
  replace (x =? 0) with false by (symmetry; apply Z.eqb_neq; lia).
  by rewrite IH.
Qed.

Lemma encode_ascii_printable (h : list Z) :
  Forall printable h -> encode_ascii h = Ok h.
Proof. apply decode_ascii_printable. Qed.

(** The announce round trip holds for valid hostnames of at most 510
    bytes. *)
Lemma announce_roundtrip_short (h : list Z) :
  (0 < length h <= 510)%nat -> Forall printable h ->
  Control.bind_r (Announce.serialize (Announce.mk (HStr h))) Announce.unserialize = Ok (Announce.mk (HStr h)).
Proof.
  intros Hlen Hp. unfold Announce.serialize; simpl.
  rewrite encode_ascii_printable by done.
  unfold PACKET_SIZE.
  replace (511 <? length h)%nat with false by (symmetry; apply Nat.ltb_ge; lia).
  simpl. unfold Announce.unserialize.
  replace (511 - length h)%nat with (S (510 - length h)) by lia.
  simpl. rewrite find_byte_app by done.
  rewrite firstn_app, firstn_all, Nat.sub_diag, app_nil_r.
  rewrite length_app, length_cons, length_replicate.
  replace (length h + S (510 - length h) =? 511)%nat with true
    by (symmetry; apply Nat.eqb_eq; lia).
  rewrite verify_hostname_accepts. simpl.
  destruct (decide _) as [_|Hn]; [done|].
  exfalso. apply Hn. split; [lia|done].
Qed.

(** C3 at a 511-byte hostname: the frame has no NUL byte, and
    [unserialize] returns the raw [bytes], unvalidated, instead of the
    [str] that was serialised. *)
Theorem announce_roundtrip_511 :
  let h := replicate 511 97 in
  Control.bind_r (Announce.serialize (Announce.mk (HStr h))) Announce.unserialize = Ok (Announce.mk (HBytes h))
  /\ HBytes h <> HStr h.
Proof. split; [vm_compute; reflexivity | discriminate]. Qed.
End AnnounceFacts.

(** ** The announce engine *)
Module EngineFacts.
Import NetProto.

(** C4 at a frame with the right header and an empty hostname (a NUL
    right after the header): [Announce.unserialize] raises
    [ValueError], which nothing catches, so [handle_messages] raises it
    and leaves the frame in [peer_buffers[host]]. *)
Theorem handle_messages_bad_hostname_raises (s : state) (host : ip) (now : Z) :
  let pkt := 1 :: replicate 511 0 in
  let s0 := set_buffers (<[host := pkt]> (peer_buffers s)) s in
  handle_messages host now s0 = (Raise ValueError, s0).
Proof.
  intros pkt s0. unfold handle_messages, bind, buffers_get.
  replace (peer_buffers s0 !! host) with (Some pkt)
    by (unfold s0; simpl; by rewrite lookup_insert_eq).
  reflexivity.
Qed.
End EngineFacts.

(** ** The peer-map invariant *)
Module PeerMapFacts.
Import NetProto.

Lemma in_after_remove (m : gmap hname (gset ip)) (n k : hname) (x a : ip) :
  a <> x -> a ∈ default ∅ (m !! k) ->
  a ∈ default ∅ (<[n := default ∅ (m !! n) ∖ {[x]}]> m !! k).
Proof.
  intros Hne Ha. rewrite lookup_insert. case_decide; subst; simpl; [|done].
  set_solver.
Qed.

Lemma in_after_add (m : gmap hname (gset ip)) (n k : hname) (x a : ip) :
  a ∈ default ∅ (m !! k) ->
  a ∈ default ∅ (<[n := {[x]} ∪ default ∅ (m !! n)]> m !! k).
Proof.
  intros Ha. rewrite lookup_insert. case_decide; subst; simpl; [|done].
  set_solver.
Qed.

Lemma record_announce_inv (host : ip) (name : hname) (now : Z) (s : state) :
  peer_inv s -> is_Some (peer_buffers s !! host) ->
  fst (record_announce host name now s) = Ok tt
  /\ peer_inv (snd (record_announce host name now s))
  /\ peer_buffers (snd (record_announce host name now s)) = peer_buffers s.
Proof.
  intros [Hfw Hdom] Hb.
  unfold record_announce, bind, modify, get, hti_add; simpl.
  destruct (ip_to_host s !! host) as [old|] eqn:Hold.
  - unfold hti_remove; simpl.
    rewrite decide_True by (apply Hfw; done). simpl.
    split; [done|]. split; [|done]. split.
    + intros a n. simpl. rewrite lookup_insert. case_decide as Ha.
      * intros [= <-]. subst a. rewrite lookup_insert, decide_True by done.
        simpl. set_solver.
      * intros Han. apply in_after_add, in_after_remove; [done|]. by apply Hfw.
    + intros a. simpl. rewrite !lookup_insert.
      case_decide as Ha; [subst; done|]. apply Hdom.
  - simpl. split; [done|]. split; [|done]. split.
    + intros a n. simpl. rewrite lookup_insert. case_decide as Ha.
      * intros [= <-]. subst a. rewrite lookup_insert, decide_True by done.
        simpl. set_solver.
      * intros Han. apply in_after_add. by apply Hfw.
    + intros a. simpl. rewrite !lookup_insert.
      case_decide as Ha; [subst; done|]. apply Hdom.
Qed.

Lemma handle_loop_inv (fuel : nat) (host : ip) (now : Z) (bs : BytesIO.bio) (s : state) :
  peer_inv s -> is_Some (peer_buffers s !! host) ->
  peer_inv (snd (handle_loop fuel host now bs s))
  /\ is_Some (peer_buffers (snd (handle_loop fuel host now bs s)) !! host).
Proof.
  revert bs s. induction fuel as [|fuel IH]; intros bs s Hinv Hb; simpl; [done|].
  remember (take PACKET_SIZE (drop (BytesIO.pos bs) (BytesIO.value bs))) as packet.
  destruct (length packet <? PACKET_SIZE)%nat; simpl; [done|].
  destruct (Announce.parses packet); simpl; [|by apply IH].
  unfold bind, lift.
  destruct (Announce.unserialize packet) as [message|e]; simpl; [|done].
  destruct (record_announce_inv host (Announce.hostname message) now s Hinv Hb)
    as (Hok & Hinv' & Hbuf).
  destruct (record_announce _ _ _ s) as [r s'] eqn:Hr. simpl in *. subst r.
  apply IH; [done|]. by rewrite Hbuf.
Qed.

Lemma buffers_get_inv (host : ip) (s : state) :
  peer_inv s ->
  peer_inv (snd (buffers_get host s))
  /\ is_Some (peer_buffers (snd (buffers_get host s)) !! host)
  /\ fst (buffers_get host s) = Ok (default [] (peer_buffers s !! host)).
Proof.
  intros [Hfw Hdom]. unfold buffers_get.
  destruct (peer_buffers s !! host) as [b|] eqn:Hb; simpl.
  - split; [by split|]. by rewrite Hb.
  - split; [split; [done|] | split; [by rewrite lookup_insert_eq | done]].
    intros a Ha. destruct (Hdom a Ha) as [Hi Hbuf]. split; [done|].
    simpl. rewrite lookup_insert. by case_decide.
Qed.

Lemma set_buffer_inv (host : ip) (b : bytes) (s : state) :
  peer_inv s -> peer_inv (set_buffers (<[host := b]> (peer_buffers s)) s).
Proof.
  intros [Hfw Hdom]. split; [done|]. intros a Ha. simpl.
  destruct (Hdom a Ha) as [Hi Hbuf]. split; [done|].
  rewrite lookup_insert. by case_decide.
Qed.

Lemma handle_messages_inv (host : ip) (now : Z) (s : state) :
  peer_inv s -> peer_inv (snd (handle_messages host now s)).
Proof.
  intros Hinv. unfold handle_messages, bind.
  destruct (buffers_get_inv host s Hinv) as (Hinv1 & Hb1 & Hr1).
  destruct (buffers_get host s) as [r1 s1]. cbn [fst snd] in *. subst r1.
  pose proof (handle_loop_inv (S (length (default [] (peer_buffers s !! host))))
              host now (BytesIO.new (default [] (peer_buffers s !! host))) s1 Hinv1 Hb1)
    as [Hinv2 _].
  destruct (handle_loop _ _ _ _ s1) as [[bs|e] s2]; cbn [fst snd] in *; [|done].
  unfold modify. by apply set_buffer_inv.
Qed.

Lemma on_message_inv (host : ip) (data : bytes) (now : Z) (s : state) :
  peer_inv s -> peer_inv (snd (on_message host data now s)).
Proof.
  intros Hinv. unfold on_message, bind at 1.
  destruct (buffers_get_inv host s Hinv) as (Hinv1 & _ & Hr1).
  destruct (buffers_get host s) as [r1 s1]. cbn [fst snd] in *. subst r1.
  unfold bind, modify at 1.
  apply handle_messages_inv, set_buffer_inv, Hinv1.
Qed.

(** [s'] has no entry [s] lacks, and the same announce time, hostname
    and sent datagrams: what the deletions of the sweep do. *)
Definition shrinks (s s' : state) : Prop :=
  (forall p, peer_last_announce_time s !! p = None ->
             peer_last_announce_time s' !! p = None)
  /\ (forall p, peer_buffers s !! p = None -> peer_buffers s' !! p = None)
  /\ (forall p, ip_to_host s !! p = None -> ip_to_host s' !! p = None)
  /\ (forall n x, x ∉ default ∅ (host_to_ips s !! n) ->
                  x ∉ default ∅ (host_to_ips s' !! n))
  /\ last_announce_time s' = last_announce_time s
  /\ hostname s' = hostname s /\ sent s' = sent s.

Lemma shrinks_refl (s : state) : shrinks s s.
Proof. repeat split; auto. Qed.

Lemma shrinks_trans (s1 s2 s3 : state) : shrinks s1 s2 -> shrinks s2 s3 -> shrinks s1 s3.
Proof.
  intros (A1 & B1 & C1 & D1 & E1 & F1 & G1) (A2 & B2 & C2 & D2 & E2 & F2 & G2).
  repeat split; auto; congruence.
Qed.

Lemma bind_shrinks {A B} (m : M state A) (k : A -> M state B) (s : state) :
  (forall s, shrinks s (snd (m s))) -> (forall a s, shrinks s (snd (k a s))) ->
  shrinks s (snd (bind m k s)).
Proof.
  intros Hm Hk. unfold bind. specialize (Hm s).
  destruct (m s) as [[a|e] s1]; simpl in *; [|done].
  eapply shrinks_trans; [apply Hm | apply Hk].
Qed.

Lemma delete_none {V} (m : gmap ip V) (k p : ip) : m !! p = None -> delete k m !! p = None.
Proof. intros H. rewrite lookup_delete. by case_decide. Qed.

Lemma del_plat_shrinks (k : ip) (s : state) : shrinks s (snd (del_plat k s)).
Proof.
  unfold del_plat. destruct (peer_last_announce_time s !! k); [|apply shrinks_refl].
  repeat split; auto. intros p. apply delete_none.
Qed.

Lemma del_buffers_shrinks (k : ip) (s : state) : shrinks s (snd (del_buffers k s)).
Proof.
  unfold del_buffers. destruct (peer_buffers s !! k); [|apply shrinks_refl].
  repeat split; auto. intros p. apply delete_none.
Qed.

Lemma del_ith_shrinks (k : ip) (s : state) : shrinks s (snd (del_ith k s)).
Proof.
  unfold del_ith. destruct (ip_to_host s !! k); [|apply shrinks_refl].
  repeat split; auto. intros p. apply delete_none.
Qed.

Lemma get_ith_shrinks (k : ip) (s : state) : shrinks s (snd (get_ith k s)).
Proof. unfold get_ith. destruct (ip_to_host s !! k); apply shrinks_refl. Qed.

Lemma hti_remove_shrinks (n : hname) (k : ip) (s : state) :
  shrinks s (snd (hti_remove n k s)).
Proof.
  unfold hti_remove. case_decide; repeat split; auto; intros m x Hx; simpl;
    rewrite lookup_insert; case_decide; subst; simpl; auto; set_solver.
Qed.

Lemma drop_peer_shrinks (peer : ip) (s : state) : shrinks s (snd (drop_peer peer s)).
Proof.
  unfold drop_peer.
  apply bind_shrinks; [apply del_plat_shrinks|intros _ s1].
  apply bind_shrinks; [apply del_buffers_shrinks|intros _ s2].
  apply bind_shrinks; [apply get_ith_shrinks|intros n s3].
  apply bind_shrinks; [apply del_ith_shrinks|intros _ s4].
  apply hti_remove_shrinks.
Qed.

Lemma drop_peers_shrinks (l : list ip) (s : state) : shrinks s (snd (drop_peers l s)).
Proof.
  revert s. induction l as [|p l IH]; intros s; simpl; [apply shrinks_refl|].
  apply bind_shrinks; [apply drop_peer_shrinks | intros _; apply IH].
Qed.

(** A peer that is gone from the four structures, [n] its old name. *)
Definition evicted (p : ip) (n : hname) (s : state) : Prop :=
  peer_last_announce_time s !! p = None /\ peer_buffers s !! p = None
  /\ ip_to_host s !! p = None /\ p ∉ default ∅ (host_to_ips s !! n).

Lemma evicted_shrinks (p : ip) (n : hname) (s s' : state) :
  evicted p n s -> shrinks s s' -> evicted p n s'.
Proof.
  intros (A & B & C & D) (A' & B' & C' & D' & _). repeat split; auto.
Qed.

Lemma drop_peer_spec (peer : ip) (s : state) :
  peer_inv s -> is_Some (peer_last_announce_time s !! peer) ->
  exists n, ip_to_host s !! peer = Some n
    /\ fst (drop_peer peer s) = Ok tt
    /\ peer_inv (snd (drop_peer peer s))
    /\ evicted peer n (snd (drop_peer peer s))
    /\ (forall q, q <> peer ->
          peer_last_announce_time (snd (drop_peer peer s)) !! q
            = peer_last_announce_time s !! q
          /\ ip_to_host (snd (drop_peer peer s)) !! q = ip_to_host s !! q).
Proof.
  intros [Hh Hp] Hs. destruct (Hp peer Hs) as [[n Hn] [b Hb]].
  destruct Hs as [t Ht]. exists n. split; [done|].
  pose proof (Hh peer n Hn) as Hin.
  unfold drop_peer, bind, del_plat, del_buffers, get_ith, del_ith, hti_remove.
  rewrite Ht. unfold set_plat, set_buffers, set_ith, set_hti.
  cbn [peer_buffers ip_to_host host_to_ips peer_last_announce_time].
  repeat progress (rewrite ?Hb, ?Hn;
    cbn [peer_buffers ip_to_host host_to_ips peer_last_announce_time]).
  rewrite decide_True by done. cbn.
  split; [done|]. unfold peer_inv, evicted.
  cbn [peer_buffers ip_to_host host_to_ips peer_last_announce_time snd].
  split; [|split].
  - split.
    + intros a m Ha. rewrite lookup_delete in Ha. case_decide; [done|].
      apply in_after_remove; auto.
    + intros a Ha. rewrite lookup_delete in Ha. case_decide; [by destruct Ha|].
      rewrite !lookup_delete. rewrite !decide_False by done. by apply Hp.
  - rewrite !lookup_delete, !decide_True by done.
    repeat split; auto. rewrite lookup_insert, decide_True by done. simpl. set_solver.
  - intros q Hq. rewrite !lookup_delete, !decide_False by done. done.
Qed.

Lemma drop_peers_spec (l : list ip) (s : state) :
  peer_inv s -> NoDup l ->
  Forall (fun p => is_Some (peer_last_announce_time s !! p)) l ->
  fst (drop_peers l s) = Ok tt /\ peer_inv (snd (drop_peers l s))
  /\ (forall p n, p ∈ l -> ip_to_host s !! p = Some n ->
                  evicted p n (snd (drop_peers l s))).
Proof.
  revert s. induction l as [|p l IH]; intros s Hinv Hnd Hall; simpl.
  - split; [done|]. split; [done|]. intros p n Hp. by apply elem_of_nil in Hp.
  - apply NoDup_cons in Hnd as [Hnotin Hnd]. apply Forall_cons in Hall as [Hp Hall].
    destruct (drop_peer_spec p s Hinv Hp) as (n & Hn & Hok & Hinv1 & Hev & Hsame).
    unfold bind. destruct (drop_peer p s) as [r s1]. cbn [fst snd] in *. subst r.
    assert (Hall1 : Forall (fun q => is_Some (peer_last_announce_time s1 !! q)) l).
    { apply Forall_forall. intros q Hq.
      assert (q <> p) by (intros ->; done).
      rewrite (proj1 (Hsame q ltac:(done))). by apply (proj1 (Forall_forall _ _) Hall). }
    destruct (IH s1 Hinv1 Hnd Hall1) as (Hok2 & Hinv2 & Hev2).
    split; [done|]. split; [done|].
    intros q m Hq Hm. apply elem_of_cons in Hq as [->|Hq].
    + rewrite Hn in Hm. injection Hm as <-.
      eapply evicted_shrinks; [exact Hev | apply drop_peers_shrinks].
    + assert (q <> p) by (intros ->; done).
      apply Hev2; [done|]. by rewrite (proj2 (Hsame q ltac:(done))).
Qed.

Lemma map_is_fmap {A B} (f : A -> B) (l : list A) : map f l = f <$> l.
Proof. induction l as [|x l IH]; [done|]. simpl. by rewrite IH. Qed.

Lemma expired_NoDup (now : Z) (s : state) : NoDup (expired now s).
Proof.
  unfold expired. rewrite map_is_fmap.
  apply (NoDup_fmap_fst (filter _ (map_to_list (peer_last_announce_time s)))).
  - intros x y1 y2 H1 H2. apply list_elem_of_filter in H1 as [_ H1].
    apply list_elem_of_filter in H2 as [_ H2].
    apply elem_of_map_to_list in H1, H2. congruence.
  - apply NoDup_filter, NoDup_map_to_list.
Qed.

Lemma expired_present (now : Z) (s : state) :
  Forall (fun p => is_Some (peer_last_announce_time s !! p)) (expired now s).
Proof.
  apply Forall_forall. intros p Hp. unfold expired in Hp. rewrite map_is_fmap in Hp.
  apply list_elem_of_fmap in Hp as [[q t] [-> Hq]].
  apply list_elem_of_filter in Hq as [_ Hq]. apply elem_of_map_to_list in Hq.
  simpl. by exists t.
Qed.

Lemma expired_spec (now : Z) (s : state) (p : ip) :
  p ∈ expired now s <->
  exists t, peer_last_announce_time s !! p = Some t /\ ANNOUNCE_TTL < now - t.
Proof.
  unfold expired. rewrite map_is_fmap, list_elem_of_fmap. split.
  - intros [[q t] [-> Hq]]. apply list_elem_of_filter in Hq as [Ht Hq].
    apply elem_of_map_to_list in Hq. by exists t.
  - intros [t [Ht Hlt]]. exists (p, t). split; [done|].
    apply list_elem_of_filter. split; [done|]. by apply elem_of_map_to_list.
Qed.

Lemma ttl_sweep_spec (now : Z) (s : state) :
  peer_inv s ->
  fst (ttl_sweep now s) = Ok tt /\ peer_inv (snd (ttl_sweep now s))
  /\ shrinks s (snd (ttl_sweep now s))
  /\ (forall p n, p ∈ expired now s -> ip_to_host s !! p = Some n ->
                  evicted p n (snd (ttl_sweep now s))).
Proof.
  intros Hinv. unfold ttl_sweep, bind, get. cbn [fst snd].
  destruct (drop_peers_spec (expired now s) s Hinv (expired_NoDup now s)
              (expired_present now s)) as (H1 & H2 & H3).
  split; [done|]. split; [done|]. split; [apply drop_peers_shrinks|done].
Qed.

Lemma drop_peer_set_sent (peer : ip) (x : list bytes) (s : state) :
  drop_peer peer (set_sent x s)
  = (fst (drop_peer peer s), set_sent x (snd (drop_peer peer s))).
Proof.
  destruct s as [h l plat hti ith bufs snt].
  unfold drop_peer, bind, del_plat, del_buffers, get_ith, del_ith, hti_remove,
    set_plat, set_buffers, set_ith, set_hti, set_sent; cbn.
  destruct (plat !! peer); [|done]. cbn.
  destruct (bufs !! peer); [|done]. cbn.
  destruct (ith !! peer) eqn:E; [|done]. cbn. rewrite ?E. cbn.
  by case_decide.
Qed.

Lemma drop_peers_set_sent (l : list ip) (x : list bytes) (s : state) :
  drop_peers l (set_sent x s)
  = (fst (drop_peers l s), set_sent x (snd (drop_peers l s))).
Proof.
  revert s. induction l as [|p l IH]; intros s; [done|]. simpl. unfold bind.
  rewrite drop_peer_set_sent. destruct (drop_peer p s) as [[[]|e] s1]; cbn [fst snd];
    [apply IH | done].
Qed.

Lemma drop_peer_no_oserror (peer : ip) (s : state) :
  fst (drop_peer peer s) <> Raise OSError.
Proof.
  unfold drop_peer, bind, del_plat, del_buffers, get_ith, del_ith, hti_remove.
  destruct (peer_last_announce_time s !! peer); [|done]. cbn.
  destruct (peer_buffers s !! peer); [|done]. cbn.
  destruct (ip_to_host s !! peer) eqn:E; [|done]. cbn. rewrite ?E. cbn.
  by case_decide.
Qed.

Lemma drop_peers_no_oserror (l : list ip) (s : state) :
  fst (drop_peers l s) <> Raise OSError.
Proof.
  revert s. induction l as [|p l IH]; intros s; [done|]. simpl. unfold bind.
  pose proof (drop_peer_no_oserror p s).
  destruct (drop_peer p s) as [[[]|e] s1]; cbn [fst snd] in *; [apply IH | done].
Qed.

Lemma serialize_no_oserror (a : Announce.t) : Announce.serialize a <> Raise OSError.
Proof.
  unfold Announce.serialize, encode_ascii.
  destruct (Announce.hostname a); [|done].
  destruct (forallb _ _); [|done]. by case_match.
Qed.

Lemma set_sent_eta (s : state) : set_sent (sent s) s = s.
Proof. by destruct s. Qed.

Lemma on_announce_timeout_throttled (t1 t2 t3 : Z) (net : send_outcome) (s : state) :
  t1 - last_announce_time s < ANNOUNCE_ALARM ->
  on_announce_timeout t1 t2 t3 net s = (Ok tt, s).
Proof.
  intros Hlt. unfold on_announce_timeout, bind, get. cbn [fst snd].
  by rewrite (proj2 (Z.ltb_lt _ _) Hlt).
Qed.

(** The unthrottled path, with the [try]/[except] resolved: a failing
    [serialize] leaves the state with the new announce time; otherwise
    the datagram is recorded when the network is up, and the sweep runs
    in both cases. *)
Lemma on_announce_timeout_fires (t1 t2 t3 : Z) (net : send_outcome) (s : state) :
  ANNOUNCE_ALARM <= t1 - last_announce_time s ->
  on_announce_timeout t1 t2 t3 net s =
    match Announce.serialize (Announce.mk (hostname s)) with
    | Raise e => (Raise e, set_last t2 s)
    | Ok pkt =>
        ttl_sweep t3 (match net with
                      | SendOk => set_sent (sent s ++ [pkt]) (set_last t2 s)
                      | SendOSError => set_last t2 s
                      end)
    end.
Proof.
  intros Hge. unfold on_announce_timeout, bind at 1, get. cbn [fst snd].
  rewrite (proj2 (Z.ltb_ge _ _) Hge).
  unfold bind at 1, modify. cbn [fst snd].
  unfold swallow_oserror, bind at 2, lift.
  pose proof (serialize_no_oserror (Announce.mk (hostname s))) as Hno.
  destruct (Announce.serialize (Announce.mk (hostname s))) as [pkt|e].
  - destruct net; cbn [sendto_all modify raise]; unfold bind; done.
  - unfold bind. by destruct e.
Qed.

Lemma on_announce_timeout_inv (t1 t2 t3 : Z) (net : send_outcome) (s : state) :
  peer_inv s -> peer_inv (snd (on_announce_timeout t1 t2 t3 net s)).
Proof.
  intros Hinv.
  destruct (Z.lt_ge_cases (t1 - last_announce_time s) ANNOUNCE_ALARM) as [Hlt|Hge].
  - by rewrite on_announce_timeout_throttled.
  - rewrite on_announce_timeout_fires by done.
    destruct (Announce.serialize _) as [pkt|e]; [|exact Hinv].
    destruct net; apply ttl_sweep_spec; exact Hinv.
Qed.

Lemma init_inv (h : list Z) : peer_inv (init h).
Proof. split; intros a; [intros n|]; simpl; rewrite lookup_empty; by inversion 1. Qed.

(** Claim C5. The peer-map invariant [peer_inv] (its first clause: every
    [(ip, name)] of [ip_to_host] has [ip] in [host_to_ips[name]]; its
    second clause, that a peer with an announce time has a name and a
    buffer, makes the sweep's deletions succeed) holds initially and is
    preserved by the receive path [on_message] and by
    [on_announce_timeout]; and the TTL sweep succeeds and removes every
    peer whose last announce is more than [ANNOUNCE_TTL] old from
    [peer_last_announce_time], [peer_buffers], [ip_to_host] and from
    [host_to_ips[old_name]]. *)
Theorem peer_map_invariant :
  (forall h, peer_inv (init h))
  /\ (forall host data now s,
        peer_inv s -> peer_inv (snd (on_message host data now s)))
  /\ (forall t1 t2 t3 net s,
        peer_inv s -> peer_inv (snd (on_announce_timeout t1 t2 t3 net s)))
  /\ (forall now s, peer_inv s ->
        fst (ttl_sweep now s) = Ok tt /\ peer_inv (snd (ttl_sweep now s))
        /\ forall p t old_name,
             peer_last_announce_time s !! p = Some t -> ANNOUNCE_TTL < now - t ->
             ip_to_host s !! p = Some old_name ->
             peer_last_announce_time (snd (ttl_sweep now s)) !! p = None
             /\ peer_buffers (snd (ttl_sweep now s)) !! p = None
             /\ ip_to_host (snd (ttl_sweep now s)) !! p = None
             /\ p ∉ default ∅ (host_to_ips (snd (ttl_sweep now s)) !! old_name)).
Proof.
  split; [exact init_inv|]. split; [exact on_message_inv|].
  split; [exact on_announce_timeout_inv|].
  intros now s Hinv. destruct (ttl_sweep_spec now s Hinv) as (H1 & H2 & _ & H4).
  split; [done|]. split; [done|].
  intros p t n Ht Hlt Hn. apply (H4 p n); [|done].
  apply expired_spec. by exists t.
Qed.

Lemma peer_map_invariant_witness :
  peer_inv (snd (on_message [10; 0; 0; 1] (1 :: 104 :: replicate 510 0) 100
                           (init [109])))
  /\ ip_to_host (snd (ttl_sweep 200 (snd (on_message [10; 0; 0; 1]
                       (1 :: 104 :: replicate 510 0) 100 (init [109])))))
       !! [10; 0; 0; 1] = None.
Proof.
  destruct peer_map_invariant as (H0 & H1 & _ & H3).
  assert (Hs : peer_inv (snd (on_message [10; 0; 0; 1] (1 :: 104 :: replicate 510 0)
                                        100 (init [109])))) by (apply H1, H0).
  split; [exact Hs|].
  refine (proj1 (proj2 (proj2 (proj2 (proj2 (H3 200 _ Hs)) [10; 0; 0; 1] 100 (HStr [104])
                        _ _ _))));
    [vm_compute; reflexivity | unfold ANNOUNCE_TTL; lia | vm_compute; reflexivity].
Defined.
End PeerMapFacts.

Module TimeoutFacts.
Import NetProto PeerMapFacts.

Lemma ttl_sweep_shrinks (now : Z) (s : state) : shrinks s (snd (ttl_sweep now s)).
Proof. unfold ttl_sweep, bind, get. cbn [fst snd]. apply drop_peers_shrinks. Qed.

Lemma ttl_sweep_set_sent (now : Z) (x : list bytes) (s : state) :
  ttl_sweep now (set_sent x s)
  = (fst (ttl_sweep now s), set_sent x (snd (ttl_sweep now s))).
Proof.
  unfold ttl_sweep, bind, get. cbn [fst snd].
  change (expired now (set_sent x s)) with (expired now s).
  apply drop_peers_set_sent.
Qed.

Lemma ttl_sweep_no_oserror (now : Z) (s : state) : fst (ttl_sweep now s) <> Raise OSError.
Proof. unfold ttl_sweep, bind, get. cbn [fst snd]. apply drop_peers_no_oserror. Qed.

(** Claim C9. When [now - last_announce_time < ANNOUNCE_ALARM] the
    call returns and changes nothing (no datagram is sent, the announce
    time stays). Otherwise the announce time becomes the clock reading
    taken after the check, whatever happens afterwards; a send that
    raises [OSError] is swallowed: the call then ends exactly as with a
    working network, except that no datagram is recorded, and it does
    not raise [OSError]. *)
Theorem on_announce_timeout_throttle_swallow
    (t1 t2 t3 : Z) (net : send_outcome) (s : state) :
  (t1 - last_announce_time s < ANNOUNCE_ALARM ->
     on_announce_timeout t1 t2 t3 net s = (Ok tt, s))
  /\ (ANNOUNCE_ALARM <= t1 - last_announce_time s ->
     last_announce_time (snd (on_announce_timeout t1 t2 t3 net s)) = t2
     /\ on_announce_timeout t1 t2 t3 SendOSError s
        = (fst (on_announce_timeout t1 t2 t3 SendOk s),
           set_sent (sent s) (snd (on_announce_timeout t1 t2 t3 SendOk s)))
     /\ fst (on_announce_timeout t1 t2 t3 SendOSError s) <> Raise OSError).
Proof.
  split; [apply on_announce_timeout_throttled|].
  intros Hge. rewrite !on_announce_timeout_fires by done.
  pose proof (serialize_no_oserror (Announce.mk (hostname s))) as Hno.
  destruct (Announce.serialize _) as [pkt|e].
  - split; [|split].
    + destruct net.
      * rewrite ttl_sweep_set_sent. apply (ttl_sweep_shrinks t3 (set_last t2 s)).
      * apply (ttl_sweep_shrinks t3 (set_last t2 s)).
    + rewrite ttl_sweep_set_sent. cbn [fst snd].
      destruct (ttl_sweep_shrinks t3 (set_last t2 s)) as (_ & _ & _ & _ & _ & _ & Hsent).
      change (set_sent (sent s) (set_sent (sent s ++ [pkt]) (snd (ttl_sweep t3 (set_last t2 s)))))
        with (set_sent (sent s) (snd (ttl_sweep t3 (set_last t2 s)))).
      assert (Hs : sent s = sent (snd (ttl_sweep t3 (set_last t2 s)))) by (rewrite Hsent; done).
      rewrite Hs, set_sent_eta. by destruct (ttl_sweep t3 (set_last t2 s)).
    + apply ttl_sweep_no_oserror.
  - split; [done|]. split; [by destruct s|]. cbn. intros [= ->]. by apply Hno.
Qed.

Lemma on_announce_timeout_throttle_swallow_witness :
  on_announce_timeout 5 6 7 SendOk (init [104]) = (Ok tt, init [104])
  /\ last_announce_time (snd (on_announce_timeout 20 21 22 SendOSError (init [104]))) = 21.
Proof.
  split.
  - apply (proj1 (on_announce_timeout_throttle_swallow 5 6 7 SendOk (init [104]))).
    simpl. unfold ANNOUNCE_ALARM. lia.
  - apply (proj1 (proj2 (on_announce_timeout_throttle_swallow 20 21 22 SendOSError
                                                             (init [104])) ltac:(simpl; unfold ANNOUNCE_ALARM; lia))).
Defined.

End TimeoutFacts.

(** ** The control engine's replies *)
Module ReplyFacts.
Import Control.

Section Replies.
Variable json_dumps : pyval -> result (list Z).
Variable native : byte_order.
Context {N : Type} `{NetworkHandler N}.
Variable nh : N.

(** Claim C8. An [IP] request whose [ip_addrs] list has exactly one
    element [a] is answered with the serialised [Host(query_ip(a))] and
    nothing else changes (a serialisation error propagates); a list of
    any other length gets no reply and leaves the state as it was.
    Serialising [Host(None)] does not validate the hostname: it is
    [length_encode_json({'type': 'name', 'hostname': None})].  The
    announce engine's [query_ip] gives [None] for an address it does not
    know.  With the JSON model and a fresh announce engine, the request
    dictionary [{"type": "ip", "ip_addrs": ["0.0.0.0"]}] unserialises to
    [IP(["0.0.0.0"])], and [handle_message] answers it with one frame
    that reads back as [{"type": "name", "hostname": null}].  (These are
    the replies of [handle_message]; the engine's [pull_messages], which
    would feed it, raises first: see claim C1.) *)
Theorem ip_request_reply (client : Z) (s : cstate) :
  (forall a, handle_message json_dumps native nh client (IP (PList [a])) s
             = match serialize json_dumps native (Host (query_ip nh a)) with
               | Ok b => (Ok tt, sendall client b s)
               | Raise e => (Raise e, s)
               end)
  /\ (forall addrs, length addrs <> 1%nat ->
        handle_message json_dumps native nh client (IP (PList addrs)) s = (Ok tt, s))
  /\ serialize json_dumps native (Host PNone)
     = length_encode_json json_dumps native
         (PDict [(lit "type", PStr (lit "name")); (lit "hostname", PNone)])
  /\ (forall (ns : NetProto.state) (t : list Z),
        NetProto.ip_to_host ns !! t = None -> query_ip ns (PStr t) = PNone)
  /\ (let data := PDict [(lit "type", PStr (lit "ip"));
                        (lit "ip_addrs", PList [PStr (lit "0.0.0.0")])] in
      bind_r (get_message_class data) (fun c => unserialize c data)
        = Ok (IP (PList [PStr (lit "0.0.0.0")]))
      /\ exists reply,
        handle_message JsonModel.dumps LittleEndian (NetProto.init (lit "me")) 3
          (IP (PList [PStr (lit "0.0.0.0")])) (mk_cstate false ∅ [])
        = (Ok tt, mk_cstate false ∅ [(3, reply)])
        /\ fst (get_length_encoded_json JsonModel.loads LittleEndian (BytesIO.new reply))
           = Ok (PDict [(lit "type", PStr (lit "name")); (lit "hostname", PNone)])).
Proof.
  split; [|split; [|split; [|split]]].
  - intros a. unfold handle_message, reply_to, bind, lift. cbn [py_len py_index0 bind_r length Nat.eqb].
    destruct (serialize json_dumps native (Host (query_ip nh a))); reflexivity.
  - intros addrs Hlen. unfold handle_message, reply_to, bind, lift. simpl.
    destruct (Nat.eqb_spec (length addrs) 1); [done|]. reflexivity.
  - reflexivity.
  - intros ns t Hnone. simpl. unfold NetProto.query_ip. by rewrite Hnone.
  - cbv zeta. split; [vm_compute; reflexivity|].
    eexists. split; [vm_compute; reflexivity | vm_compute; reflexivity].
Qed.
End Replies.

Lemma ip_request_reply_witness :
  handle_message JsonModel.dumps LittleEndian (NetProto.init (lit "me")) 3
    (IP (PList [])) (mk_cstate false ∅ []) = (Ok tt, mk_cstate false ∅ []).
Proof.
  apply (proj1 (proj2 (ip_request_reply JsonModel.dumps LittleEndian
                         (NetProto.init (lit "me")) 3 (mk_cstate false ∅ [])))).
  simpl. lia.
Defined.
End ReplyFacts.

(** ** UTF-8 and the length-prefixed JSON frames *)
Module FrameFacts.
Import Control.

Lemma lor_disjoint (a b k : Z) :
  0 <= k -> 0 <= b < 2 ^ k -> a mod 2 ^ k = 0 -> Z.lor a b = a + b.
Proof.
  intros Hk Hb Ha.
  assert (Hb' : Z.land b (Z.ones k) = b)
    by (rewrite Z.land_ones by lia; apply Z.mod_small; lia).
  assert (Ha' : Z.land a (Z.ones k) = 0) by (rewrite Z.land_ones by lia; done).
  assert (Hl : Z.land a b = 0)
    by (rewrite <- Hb', (Z.land_comm b), Z.land_assoc, Ha'; apply Z.land_0_l).
  rewrite <- Z.lxor_lor by done. by rewrite Z.add_nocarry_lxor.
Qed.

Lemma land_low (x : Z) (k : Z) : 0 <= k -> Z.land x (2 ^ k - 1) = x mod 2 ^ k.
Proof. intros Hk. rewrite <- Z.land_ones by done. by rewrite Z.ones_equiv. Qed.

Lemma land_63 (x : Z) : Z.land x 63 = x mod 64.
Proof. apply (land_low x 6). lia. Qed.
Lemma land_31 (x : Z) : Z.land x 31 = x mod 32.
Proof. apply (land_low x 5). lia. Qed.
Lemma land_15 (x : Z) : Z.land x 15 = x mod 16.
Proof. apply (land_low x 4). lia. Qed.
Lemma land_7 (x : Z) : Z.land x 7 = x mod 8.
Proof. apply (land_low x 3). lia. Qed.

Lemma shiftr_div (x k : Z) : 0 <= k -> Z.shiftr x k = x / 2 ^ k.
Proof. apply Z.shiftr_div_pow2. Qed.
Lemma shiftl_mul (x k : Z) : 0 <= k -> Z.shiftl x k = x * 2 ^ k.
Proof. apply Z.shiftl_mul_pow2. Qed.

Lemma lor_shiftl (a x k : Z) :
  0 <= k -> 0 <= x < 2 ^ k -> Z.lor (Z.shiftl a k) x = a * 2 ^ k + x.
Proof.
  intros Hk Hx. rewrite shiftl_mul by done. apply (lor_disjoint _ _ k); [done|done|].
  apply Z.mod_mul. lia.
Qed.

Ltac zarith := Z.div_mod_to_equations; lia.

(** Case on every comparison of the goal. *)
Ltac split_cmp :=
  repeat (match goal with
          | |- context [?x =? ?y] => case (Z.eqb_spec x y)
          | |- context [?x <? ?y] => case (Z.ltb_spec x y)
          | |- context [?x <=? ?y] => case (Z.leb_spec x y)
          end; intro).

Lemma lead_info_2 (b0 : Z) : 194 <= b0 <= 223 -> lead_info b0 = Some (1%nat, 128, 191).
Proof. intros H. unfold lead_info, in_range. split_cmp; cbn; (reflexivity || lia). Qed.

Lemma lead_info_3 (b0 : Z) :
  224 <= b0 <= 239 ->
  lead_info b0 = Some (2%nat, if b0 =? 224 then 160 else 128,
                              if b0 =? 237 then 159 else 191).
Proof. intros H. unfold lead_info, in_range. split_cmp; cbn; (reflexivity || lia). Qed.

Lemma lead_info_4 (b0 : Z) :
  240 <= b0 <= 244 ->
  lead_info b0 = Some (3%nat, if b0 =? 240 then 144 else 128,
                              if b0 =? 244 then 143 else 191).
Proof. intros H. unfold lead_info, in_range. split_cmp; cbn; (reflexivity || lia). Qed.

Lemma in_range_true (lo hi x : Z) : lo <= x <= hi -> in_range lo hi x = true.
Proof. intros H. unfold in_range. apply andb_true_intro; split; apply Z.leb_le; lia. Qed.

Lemma decode_2 (b0 b1 : Z) (r : bytes) :
  194 <= b0 <= 223 -> 128 <= b1 <= 191 ->
  decode_utf8 (b0 :: b1 :: r)
  = rcons (Z.lor (Z.shiftl (Z.land b0 31) 6) (Z.land b1 63)) (decode_utf8 r).
Proof.
  intros H0 H1. remember (b1 :: r) as tl eqn:Etl. cbn [decode_utf8].
  destruct (Z.ltb_spec b0 128); [lia|]. rewrite lead_info_2 by done. subst tl.
  by rewrite in_range_true.
Qed.

Lemma decode_3 (b0 b1 b2 : Z) (r : bytes) :
  224 <= b0 <= 239 ->
  (if b0 =? 224 then 160 else 128) <= b1 <= (if b0 =? 237 then 159 else 191) ->
  128 <= b2 <= 191 ->
  decode_utf8 (b0 :: b1 :: b2 :: r)
  = rcons (Z.lor (Z.shiftl (Z.land b0 15) 12)
             (Z.lor (Z.shiftl (Z.land b1 63) 6) (Z.land b2 63))) (decode_utf8 r).
Proof.
  intros H0 H1 H2. remember (b1 :: b2 :: r) as tl eqn:Etl. cbn [decode_utf8].
  destruct (Z.ltb_spec b0 128); [lia|]. rewrite lead_info_3 by done. subst tl.
  unfold cont. by rewrite !in_range_true.
Qed.

Lemma decode_4 (b0 b1 b2 b3 : Z) (r : bytes) :
  240 <= b0 <= 244 ->
  (if b0 =? 240 then 144 else 128) <= b1 <= (if b0 =? 244 then 143 else 191) ->
  128 <= b2 <= 191 -> 128 <= b3 <= 191 ->
  decode_utf8 (b0 :: b1 :: b2 :: b3 :: r)
  = rcons (Z.lor (Z.shiftl (Z.land b0 7) 18)
             (Z.lor (Z.shiftl (Z.land b1 63) 12)
                (Z.lor (Z.shiftl (Z.land b2 63) 6) (Z.land b3 63)))) (decode_utf8 r).
Proof.
  intros H0 H1 H2 H3. remember (b1 :: b2 :: b3 :: r) as tl eqn:Etl. cbn [decode_utf8].
  destruct (Z.ltb_spec b0 128); [lia|]. rewrite lead_info_4 by done. subst tl.
  unfold cont. by rewrite !in_range_true.
Qed.

Lemma shiftr_6 (c : Z) : Z.shiftr c 6 = c / 64.
Proof. by rewrite shiftr_div. Qed.
Lemma shiftr_12 (c : Z) : Z.shiftr c 12 = c / 4096.
Proof. by rewrite shiftr_div. Qed.
Lemma shiftr_18 (c : Z) : Z.shiftr c 18 = c / 262144.
Proof. by rewrite shiftr_div. Qed.

Lemma lor_low (a b m k : Z) :
  0 <= k -> m = 2 ^ k -> 0 <= b < m -> a mod m = 0 -> Z.lor a b = a + b.
Proof. intros Hk -> Hb Ha. by apply (lor_disjoint _ _ k). Qed.

Lemma shiftl_lor (a x k m : Z) :
  0 <= k -> m = 2 ^ k -> 0 <= x < m -> Z.lor (Z.shiftl a k) x = a * m + x.
Proof. intros Hk -> Hx. by apply lor_shiftl. Qed.

Lemma add_mod_small (p x m : Z) : 0 <= x < m -> p mod m = 0 -> (p + x) mod m = x.
Proof.
  intros Hx Hp. rewrite <- Zplus_mod_idemp_l, Hp, Z.add_0_l. by apply Z.mod_small.
Qed.

Ltac side := first [ lia | reflexivity | zarith ].

Lemma encode_char_decode (c : Z) (b r : bytes) :
  0 <= c <= 1114111 -> encode_char c = Ok b ->
  decode_utf8 (b ++ r) = rcons c (decode_utf8 r).
Proof.
  intros Hc He. unfold encode_char in He.
  destruct (Z.ltb_spec c 128).
  { injection He as <-. simpl. destruct (Z.ltb_spec c 128); [done|lia]. }
  destruct (Z.ltb_spec c 2048).
  { injection He as <-. rewrite shiftr_6, land_63.
    rewrite (lor_low 192 (c / 64) 64 6), (lor_low 128 (c mod 64) 64 6) by side.
    cbn [app]. rewrite decode_2 by zarith. f_equal.
    rewrite land_31, land_63, (add_mod_small 192 (c / 64) 32), (add_mod_small 128 (c mod 64) 64)
      by side.
    rewrite (shiftl_lor _ _ 6 64) by side. zarith. }
  destruct (in_range 55296 57343 c) eqn:Hsur; [done|].
  destruct (Z.ltb_spec c 65536).
  { injection He as <-. rewrite shiftr_12, shiftr_6, !land_63.
    rewrite (lor_low 224 (c / 4096) 16 4), (lor_low 128 ((c / 64) mod 64) 64 6),
      (lor_low 128 (c mod 64) 64 6) by side.
    unfold in_range in Hsur.
    cbn [app]. rewrite decode_3 by (split_cmp; zarith). f_equal.
    rewrite land_15, !land_63, (add_mod_small 224 (c / 4096) 16),
      (add_mod_small 128 ((c / 64) mod 64) 64), (add_mod_small 128 (c mod 64) 64) by side.
    rewrite (shiftl_lor _ _ 6 64), (shiftl_lor _ _ 12 4096) by side. zarith. }
  { injection He as <-. rewrite shiftr_18, shiftr_12, shiftr_6, !land_63.
    rewrite (lor_low 240 (c / 262144) 8 3), (lor_low 128 ((c / 4096) mod 64) 64 6),
      (lor_low 128 ((c / 64) mod 64) 64 6), (lor_low 128 (c mod 64) 64 6) by side.
    cbn [app]. rewrite decode_4 by (split_cmp; zarith). f_equal.
    rewrite land_7, !land_63, (add_mod_small 240 (c / 262144) 8),
      (add_mod_small 128 ((c / 4096) mod 64) 64), (add_mod_small 128 ((c / 64) mod 64) 64),
      (add_mod_small 128 (c mod 64) 64) by side.
    rewrite (shiftl_lor _ _ 6 64), (shiftl_lor _ _ 12 4096), (shiftl_lor _ _ 18 262144)
      by side. zarith. }
Qed.

Definition valid_char (c : Z) : Prop := 0 <= c <= 1114111.

Lemma encode_utf8_decode (s : list Z) (b r : bytes) :
  Forall valid_char s -> encode_utf8 s = Ok b ->
  decode_utf8 (b ++ r) = bind_r (decode_utf8 r) (fun l => Ok (s ++ l)).
Proof.
  revert b. induction s as [|c s IH]; intros b Hs He.
  - injection He as <-. simpl. by destruct (decode_utf8 r).
  - apply Forall_cons in Hs as [Hc Hs]. simpl in He.
    destruct (encode_char c) as [bc|e] eqn:Ec; [|done].
    destruct (encode_utf8 s) as [bs|e] eqn:Es; [|done].
    injection He as <-. rewrite <- app_assoc, (encode_char_decode c bc) by done.
    rewrite (IH bs) by done. by destruct (decode_utf8 r).
Qed.

Lemma land_255 (x : Z) : Z.land x 255 = x mod 256.
Proof. apply (land_low x 8). lia. Qed.

Lemma shiftr_8 (c : Z) : Z.shiftr c 8 = c / 256.
Proof. by rewrite shiftr_div. Qed.

Lemma pack_unpack (bo : byte_order) (n : Z) (hdr : bytes) :
  pack_H bo n = Ok hdr -> exists h0 h1, hdr = [h0; h1] /\ unpack_H bo h0 h1 = n
                                   /\ 0 <= n <= 65535.
Proof.
  unfold pack_H. destruct (in_range 0 65535 n) eqn:Hr; [|done].
  unfold in_range in Hr. apply andb_true_iff in Hr as [H1 H2].
  apply Z.leb_le in H1, H2.
  destruct bo; intros [= <-]; do 2 eexists; (split; [reflexivity|]);
    (split; [|lia]); simpl; rewrite land_255, shiftr_8; zarith.
Qed.

Lemma pack_H_range (bo : byte_order) (n : Z) :
  pack_H bo n = Raise StructError <-> ~ (0 <= n <= 65535).
Proof.
  unfold pack_H, in_range.
  destruct (Z.leb_spec 0 n); destruct (Z.leb_spec n 65535); cbn;
    (split; [destruct bo; intros; (done || lia) | intros; (done || lia)]).
Qed.

Section Frames.
Variable json_dumps : pyval -> result (list Z).
Variable json_loads : list Z -> result pyval.
Variable native : byte_order.

(** Reading a frame [hdr ++ b] at the position of a stream. *)
Lemma frame_read (st : BytesIO.bio) (hdr b rest : bytes) :
  drop (BytesIO.pos st) (BytesIO.value st) = hdr ++ b ++ rest ->
  pack_H native (Z.of_nat (length b)) = Ok hdr ->
  get_length_encoded_json json_loads native st
  = (bind_r (decode_utf8 b) json_loads,
     BytesIO.mk_bio (BytesIO.value st) (BytesIO.pos st + 2 + length b)).
Proof.
  intros Hd Hp. destruct (pack_unpack _ _ _ Hp) as (h0 & h1 & -> & Hu & _).
  unfold get_length_encoded_json, BytesIO.read. rewrite Hd.
  rewrite (take_app_length' [h0; h1] (b ++ rest) 2) by done.
  cbn [BytesIO.value BytesIO.pos length]. rewrite Hu, Nat2Z.id.
  replace (drop (BytesIO.pos st + 2) (BytesIO.value st)) with (b ++ rest).
  2:{ by rewrite <- drop_drop, Hd. }
  rewrite take_app_length, Nat.eqb_refl. cbn. do 2 f_equal; lia.
Qed.

Lemma length_encode_json_ok (data : pyval) (frame : bytes) :
  length_encode_json json_dumps native data = Ok frame ->
  exists s b hdr, json_dumps data = Ok s /\ encode_utf8 s = Ok b
    /\ pack_H native (Z.of_nat (length b)) = Ok hdr /\ frame = hdr ++ b
    /\ Z.of_nat (length b) <= 65535.
Proof.
  unfold length_encode_json, bind_r.
  destruct (json_dumps data) as [s|e] eqn:Hd; [|done].
  destruct (encode_utf8 s) as [b|e] eqn:He; [|done].
  destruct (pack_H native _) as [hdr|e] eqn:Hp; [|done].
  intros [= <-]. exists s, b, hdr. repeat split; try done.
  destruct (pack_unpack _ _ _ Hp) as (_ & _ & _ & _ & Hr). lia.
Qed.

Lemma serialize_frame (m : message) (frame : bytes) :
  serialize json_dumps native m = Ok frame ->
  exists data, length_encode_json json_dumps native data = Ok frame.
Proof.
  destruct m; simpl; intros H; try (eexists; exact H).
  destruct (match hostname with PNone => Ok tt | _ => verify_hostname_value hostname end);
    [|done].
  eexists. exact H.
Qed.
(** Claim C10. [struct.pack('H', n)] only packs [0 <= n <= 65535]: a
    JSON text whose UTF-8 encoding is longer than 65535 bytes makes
    [length_encode_json] raise [struct.error]; so every frame any
    message serialises to is a 2-byte header followed by at most 65535
    bytes of JSON. Conversely, when [json.dumps(data)] encodes to at
    most 65535 bytes and [json.loads] gives [data] back from that text,
    [get_length_encoded_json] reads the frame, followed by any bytes,
    back as [data] and stops just after it. *)
Theorem length_prefixed_json :
  (forall data s b, json_dumps data = Ok s -> encode_utf8 s = Ok b ->
     65535 < Z.of_nat (length b) ->
     length_encode_json json_dumps native data = Raise StructError)
  /\ (forall m frame, serialize json_dumps native m = Ok frame ->
       exists data s b hdr, json_dumps data = Ok s /\ encode_utf8 s = Ok b
         /\ Z.of_nat (length b) <= 65535 /\ frame = hdr ++ b /\ length hdr = 2%nat)
  /\ (forall data s b rest, json_dumps data = Ok s -> Forall valid_char s ->
       encode_utf8 s = Ok b -> Z.of_nat (length b) <= 65535 -> json_loads s = Ok data ->
       exists frame, length_encode_json json_dumps native data = Ok frame
         /\ get_length_encoded_json json_loads native (BytesIO.new (frame ++ rest))
            = (Ok data, BytesIO.mk_bio (frame ++ rest) (length frame))).
Proof.
  split; [|split].
  - intros data s b Hd He Hlen. unfold length_encode_json.
    rewrite Hd; cbn [bind_r]; rewrite He; cbn [bind_r].
    rewrite (proj2 (pack_H_range native (Z.of_nat (length b)))) by lia. reflexivity.
  - intros m frame Hm. destruct (serialize_frame m frame Hm) as [data Hdata].
    destruct (length_encode_json_ok data frame Hdata) as (s & b & hdr & Hd & He & Hp & -> & Hl).
    destruct (pack_unpack _ _ _ Hp) as (h0 & h1 & -> & _).
    exists data, s, b, [h0; h1]. done.
  - intros data s b rest Hd Hs He Hlen Hl.
    assert (Hp : exists hdr, pack_H native (Z.of_nat (length b)) = Ok hdr).
    { unfold pack_H. rewrite in_range_true by lia. destruct native; eexists; reflexivity. }
    destruct Hp as [hdr Hp].
    destruct (pack_unpack _ _ _ Hp) as (h0 & h1 & Eh & _).
    exists (hdr ++ b). split.
    + unfold length_encode_json.
      by rewrite Hd; cbn [bind_r]; rewrite He; cbn [bind_r]; rewrite Hp.
    + rewrite <- app_assoc.
      rewrite (frame_read (BytesIO.new (hdr ++ b ++ rest)) hdr b rest) by done.
      pose proof (encode_utf8_decode s b [] Hs He) as Hdec.
      rewrite app_nil_r in Hdec. rewrite Hdec. cbn. rewrite app_nil_r, Hl.
      subst hdr. reflexivity.
Qed.
End Frames.

Lemma length_prefixed_json_witness :
  exists frame,
    length_encode_json JsonModel.dumps LittleEndian
      (PDict [(lit "type", PStr (lit "quit"))]) = Ok frame
    /\ get_length_encoded_json JsonModel.loads LittleEndian (BytesIO.new (frame ++ [7]))
       = (Ok (PDict [(lit "type", PStr (lit "quit"))]),
          BytesIO.mk_bio (frame ++ [7]) (length frame)).
Proof.
  apply (proj2 (proj2 (length_prefixed_json JsonModel.dumps JsonModel.loads LittleEndian))
           (PDict [(lit "type", PStr (lit "quit"))])
           (match JsonModel.dumps (PDict [(lit "type", PStr (lit "quit"))]) with
            | Ok s => s | Raise _ => [] end)
           (match bind_r (JsonModel.dumps (PDict [(lit "type", PStr (lit "quit"))]))
                    encode_utf8 with
            | Ok b => b | Raise _ => [] end)
           [7]).
  - vm_compute. reflexivity.
  - apply (bool_decide_unpack _). vm_compute. reflexivity.
  - vm_compute. reflexivity.
  - apply Z.leb_le. vm_compute. reflexivity.
  - vm_compute. reflexivity.
Defined.
End FrameFacts.

(** ** The reactors' dispatch order *)
Module ReactorFacts.
Import Reactor.

Section Traces.
Context {Cb : Type}.

Lemma events_of_app (fd : Z) (t1 t2 : list (@call Cb)) :
  events_of fd (t1 ++ t2) = events_of fd t1 ++ events_of fd t2.
Proof. unfold events_of. apply flat_map_app. Qed.

Lemma events_of_steps (fd : Z) (l : list Cb) : events_of fd (run_step_callbacks l) = [].
Proof. induction l; simpl; auto. Qed.

Lemma events_of_dispatch_if (r : @poll_like Cb) (fd fd' : Z) (es : list event) (ev : event) :
  events_of fd (dispatch_if r fd' es ev)
  = if decide (fd' = fd) then (if decide (ev ∈ es) then [ev] else []) else [].
Proof.
  unfold dispatch_if. destruct (decide (ev ∈ es)); simpl;
    destruct (decide (fd' = fd)); reflexivity.
Qed.

(** The events of [fd] in the trace of one pass of the [for] loop. *)
Definition fd_events (r : @poll_like Cb) (fd : Z) (p : Z * Z) : list event :=
  let '(fd', flag) := p in
  if decide (fd' = fd) then
    let es := flags_to_event_set r flag in
    (if decide (READABLE ∈ es) then [READABLE] else [])
    ++ (if decide (WRITABLE ∈ es) then [WRITABLE] else [])
    ++ (if decide (ERROR ∈ es) then [ERROR] else [])
  else [].

Lemma events_of_flat_map {A} (fd : Z) (F : A -> list (@call Cb)) (l : list A) :
  events_of fd (flat_map F l) = flat_map (fun x => events_of fd (F x)) l.
Proof.
  induction l as [|x l IH]; [done|]. cbn [flat_map]. by rewrite events_of_app, IH.
Qed.

Lemma events_of_poll_loop (r : @poll_like Cb) (fd : Z) (events : list (Z * Z)) :
  events_of fd (flat_map (fun '(fd, event_flag) =>
              let event_set := flags_to_event_set r event_flag in
              dispatch_if r fd event_set READABLE
              ++ dispatch_if r fd event_set WRITABLE
              ++ dispatch_if r fd event_set ERROR) events)
  = flat_map (fd_events r fd) events.
Proof.
  rewrite events_of_flat_map. apply flat_map_ext. intros [fd' flag].
  rewrite !events_of_app, !events_of_dispatch_if. unfold fd_events.
  by destruct (decide (fd' = fd)).
Qed.

Lemma flat_map_all_nil {A B} (g : A -> list B) (l : list A) :
  (forall y, y ∈ l -> g y = []) -> flat_map g l = [].
Proof.
  induction l as [|y l IH]; intros Hg; [done|]. cbn [flat_map].
  rewrite Hg; [|by left]. rewrite IH; [done|]. intros z Hz. apply Hg. by right.
Qed.

Lemma flat_map_unique {A B} (f : A -> Z) (g : A -> list B) (l : list A) (x : A) :
  NoDup (map f l) -> x ∈ l -> (forall y, f y <> f x -> g y = []) ->
  flat_map g l = g x.
Proof.
  intros Hnd Hx Hg. induction l as [|y l IH]; [by apply elem_of_nil in Hx|].
  cbn [map] in Hnd. apply NoDup_cons in Hnd as [Hy Hnd].
  cbn [flat_map]. apply elem_of_cons in Hx as [->|Hx].
  - rewrite flat_map_all_nil; [by rewrite app_nil_r|].
    intros z Hz. apply Hg. intros Heq. apply Hy. rewrite <- Heq.
    apply list_elem_of_fmap. by exists z.
  - rewrite Hg, IH; [done|done|done|].
    intros Heq. apply Hy. rewrite Heq. apply list_elem_of_fmap. by exists x.
Qed.

Lemma events_of_map (fd : Z) (m : gmap Z Cb) (ev : event) (l : list Z) :
  NoDup l ->
  events_of fd (map (fun fd' => Dispatch (m !! fd') fd' ev) l)
  = if decide (fd ∈ l) then [ev] else [].
Proof.
  induction l as [|x l IH]; intros Hnd; [done|].
  apply NoDup_cons in Hnd as [Hx Hnd]. cbn [map events_of flat_map].
  fold (events_of fd (map (fun fd' => Dispatch (m !! fd') fd' ev) l)).
  rewrite IH by done. destruct (decide (x = fd)) as [->|Hne].
  - rewrite decide_False by done. rewrite decide_True by (by left). done.
  - simpl. destruct (decide (fd ∈ l)) as [Hin|Hin].
    + rewrite decide_True by (by right). done.
    + rewrite decide_False; [done|]. intros [->|?]%elem_of_cons; done.
Qed.

Lemma Forall_dispatch_if (r : @poll_like Cb) (fd : Z) (es : list event) (ev : event) :
  Forall (fun c => match c with
                   | Dispatch cb fd ev => cb = callbacks r !! (fd, ev)
                   | Step _ => False end) (dispatch_if r fd es ev).
Proof. unfold dispatch_if. case_decide; repeat constructor. Qed.

(** Claim C7: one call of [poll] on either reactor first dispatches
    events, each to the callback bound to its fd and event (or
    [EMPTY_CALLBACK]), and then runs every step callback once, in the
    set's order, with no event fired as well. For one fd, the events
    dispatched come in the order READABLE, WRITABLE, ERROR: for
    [PollLikeReactor], those of the fd's event flag (the poller reports
    each fd once); for [SelectReactor], those whose list [select]
    returned the fd in. *)
Theorem reactor_poll_order :
  (forall (r : @poll_like Cb) (events : list (Z * Z)),
     (exists ds, poll_like_poll r events = ds ++ run_step_callbacks (step_callbacks r)
        /\ Forall (fun c => match c with
                            | Dispatch cb fd ev => cb = callbacks r !! (fd, ev)
                            | Step _ => False end) ds)
     /\ (NoDup (map fst events) -> forall fd flag, (fd, flag) ∈ events ->
           events_of fd (poll_like_poll r events)
           = (if decide (READABLE ∈ flags_to_event_set r flag) then [READABLE] else [])
             ++ (if decide (WRITABLE ∈ flags_to_event_set r flag) then [WRITABLE] else [])
             ++ (if decide (ERROR ∈ flags_to_event_set r flag) then [ERROR] else []))
     /\ poll_like_poll r [] = run_step_callbacks (step_callbacks r))
  /\ (forall (r : @select_r Cb) (rl wl xl : list Z),
     (exists ds, select_poll r rl wl xl = ds ++ run_step_callbacks (s_step_callbacks r)
        /\ Forall (fun c => match c with
                            | Dispatch cb fd READABLE => cb = readers r !! fd
                            | Dispatch cb fd WRITABLE => cb = writers r !! fd
                            | Dispatch cb fd ERROR => cb = errors r !! fd
                            | Step _ => False end) ds)
     /\ (has_clients r = true -> NoDup rl -> NoDup wl -> NoDup xl -> forall fd,
           events_of fd (select_poll r rl wl xl)
           = (if decide (fd ∈ rl) then [READABLE] else [])
             ++ (if decide (fd ∈ wl) then [WRITABLE] else [])
             ++ (if decide (fd ∈ xl) then [ERROR] else []))
     /\ (has_clients r = false ->
           select_poll r rl wl xl = run_step_callbacks (s_step_callbacks r))).
Proof.
  split.
  - intros r events. split; [|split; [|done]].
    + eexists. split; [reflexivity|].
      induction events as [|[fd flag] events IH]; [constructor|]. cbn [flat_map].
      apply Forall_app. split; [|done].
      apply Forall_app. split; [apply Forall_dispatch_if|].
      apply Forall_app. split; apply Forall_dispatch_if.
    + intros Hnd fd flag Hin. unfold poll_like_poll.
      rewrite events_of_app, events_of_poll_loop, events_of_steps, app_nil_r.
      rewrite (flat_map_unique fst (fd_events r fd) events (fd, flag) Hnd Hin).
      * unfold fd_events. by rewrite decide_True.
      * intros [fd' flag'] Hne. simpl in Hne. unfold fd_events.
        by rewrite decide_False.
  - intros r rl wl xl. split; [|split].
    + unfold select_poll. destruct (has_clients r); cbn [negb].
      * eexists. split; [rewrite !app_assoc; reflexivity|].
        rewrite !Forall_app, !Forall_map. repeat split; by apply Forall_forall.
      * exists []. split; [done|constructor].
    + intros Hc Hr Hw Hx fd. unfold select_poll. rewrite Hc. cbn [negb].
      by rewrite !events_of_app, !events_of_map, events_of_steps, app_nil_r.
    + intros Hc. unfold select_poll. by rewrite Hc.
Qed.
End Traces.

Lemma reactor_poll_order_witness :
  NoDup (map fst [(4, 5); (6, 1)])
  /\ events_of 4 (poll_like_poll (@mk_poll_like nat ∅ [7%nat] 1 4 [8])
                    [(4, 5); (6, 1)]) = [READABLE; WRITABLE]
  /\ has_clients (@mk_select nat {[3 := 0%nat]} ∅ ∅ [7%nat]) = true
  /\ events_of 3 (select_poll (@mk_select nat {[3 := 0%nat]} ∅ ∅ [7%nat]) [3] [3] [])
     = [READABLE; WRITABLE].
Proof.
  assert (Hnd : NoDup (map fst [(4, 5); (6, 1)])).
  { apply (bool_decide_unpack _). vm_compute. reflexivity. }
  assert (Hc : has_clients (@mk_select nat {[3 := 0%nat]} ∅ ∅ [7%nat]) = true).
  { vm_compute. reflexivity. }
  split; [exact Hnd|]. split.
  - rewrite (proj1 (proj2 (proj1 (@reactor_poll_order nat) _ _)) Hnd 4 5).
    + vm_compute. reflexivity.
    + apply (bool_decide_unpack _). vm_compute. reflexivity.
  - split; [exact Hc|].
    rewrite (proj1 (proj2 (proj2 (@reactor_poll_order nat) _ _ _ _)) Hc).
    + vm_compute. reflexivity.
    + apply (bool_decide_unpack _). vm_compute. reflexivity.
    + apply (bool_decide_unpack _). vm_compute. reflexivity.
    + apply NoDup_nil_2.
Defined.
End ReactorFacts.

(** ** [pull_messages] and [on_message_recv] *)
Module PullFacts.
Import Control.


End PullFacts.

(** ** Registration with the reactors *)
Module ReactorRegFacts.
Import Reactor ReactorReg.

Section Facts.
Context {Cb : Type}.

(** The invariant [bind] and [unbind] keep between the three maps: the
    pollster holds, for each watched fd, the flags of its event set, and a
    callback is stored exactly for the (fd, event) pairs of [fd_events]. *)
Definition reg_inv (s : @reg Cb) : Prop :=
  (forall fd, pollster s !! fd = event_set_to_flags (base s) <$> fd_events s !! fd)
  /\ (forall fd e, is_Some (callbacks (base s) !! (fd, e)) <->
                   exists es, fd_events s !! fd = Some es /\ e ∈ es).

(** The flag an event contributes to [_event_set_to_flags]. *)
Definition ev_flag (r : @poll_like Cb) (e : event) : Z :=
  match e with
  | READABLE => read_flag r
  | WRITABLE => write_flag r
  | ERROR => fold_left Z.lor (err_flags r) 0
  end.

(** Flag values under which [_flags_to_event_set] inverts
    [_event_set_to_flags] (epoll's and poll's own values satisfy them). *)
Definition flags_ok (r : @poll_like Cb) : Prop :=
  read_flag r <> 0 /\ write_flag r <> 0 /\ Z.land (read_flag r) (write_flag r) = 0
  /\ Forall (fun f => Z.land (read_flag r) f = 0 /\ Z.land (write_flag r) f = 0) (err_flags r)
  /\ Exists (fun f => f <> 0) (err_flags r).


Lemma fold_insert_lookup (fd : Z) (cb : Cb) (l : list event)
    (m : gmap (Z * event) Cb) (fd' : Z) (e : event) :
  fold_left (fun m event => <[(fd, event) := cb]> m) l m !! (fd', e)
  = if decide (fd' = fd /\ e ∈ l) then Some cb else m !! (fd', e).
Proof.
  revert m. induction l as [|e0 l IH]; intros m; simpl.
  - rewrite decide_False; [done|]. intros [_ ?%elem_of_nil]; done.
  - rewrite IH, lookup_insert.
    destruct (decide (fd' = fd /\ e ∈ l)) as [H1|H1];
      destruct (decide (fd' = fd /\ e ∈ e0 :: l)) as [H2|H2];
      destruct (decide ((fd, e0) = (fd', e))) as [H3|H3];
      try done; exfalso; set_solver.
Qed.

Lemma fold_delete_lookup (fd : Z) (l : list event)
    (m : gmap (Z * event) Cb) (fd' : Z) (e : event) :
  fold_left (fun m event => delete (fd, event) m) l m !! (fd', e)
  = if decide (fd' = fd /\ e ∈ l) then None else m !! (fd', e).
Proof.
  revert m. induction l as [|e0 l IH]; intros m; simpl.
  - rewrite decide_False; [done|]. intros [_ ?%elem_of_nil]; done.
  - rewrite IH, lookup_delete.
    destruct (decide (fd' = fd /\ e ∈ l)) as [H1|H1];
      destruct (decide (fd' = fd /\ e ∈ e0 :: l)) as [H2|H2];
      destruct (decide ((fd, e0) = (fd', e))) as [H3|H3];
      try done; exfalso; set_solver.
Qed.

Lemma del_callbacks_ok (fd : Z) (l : list event) (s : @reg Cb) :
  (forall e, e ∈ l -> is_Some (callbacks (base s) !! (fd, e))) -> NoDup l ->
  del_callbacks fd l s
  = (Ok tt, set_callbacks (fold_left (fun m event => delete (fd, event) m) l
                                     (callbacks (base s))) s).
Proof.
  revert s. induction l as [|e l IH]; intros s Hin Hnd; simpl.
  - destruct s as [[] fe ps]; reflexivity.
  - destruct (Hin e ltac:(by left)) as [c Hc]. rewrite Hc.
    apply NoDup_cons in Hnd as [He Hnd].
    rewrite IH; [reflexivity| |done].
    intros e' He'. simpl. rewrite lookup_delete_ne.
    + apply Hin. by right.
    + intros [= <-]. done.
Qed.

Lemma del_callbacks_missing (fd : Z) (l : list event) (s : @reg Cb) (e : event) :
  e ∈ l -> callbacks (base s) !! (fd, e) = None ->
  fst (del_callbacks fd l s) = Raise KeyError.
Proof.
  revert s. induction l as [|e0 l IH]; intros s Hin Hnone; simpl.
  - by apply elem_of_nil in Hin.
  - destruct (callbacks (base s) !! (fd, e0)) eqn:Hc; [|done].
    apply IH.
    + apply elem_of_cons in Hin as [->|Hin]; [congruence|done].
    + simpl. by rewrite lookup_delete_None; right.
Qed.


Lemma flags_set_callbacks (m : gmap (Z * event) Cb) (s : @reg Cb) :
  event_set_to_flags (base (set_callbacks m s)) = event_set_to_flags (base s).
Proof. reflexivity. Qed.

Lemma bind_callbacks_lookup (fd : Z) (es : gset event) (cb : Cb)
    (m : gmap (Z * event) Cb) (fd' : Z) (e : event) :
  fold_left (fun m event => <[(fd, event) := cb]> m) (elements es) m !! (fd', e)
  = if decide (fd' = fd /\ e ∈ es) then Some cb else m !! (fd', e).
Proof.
  rewrite fold_insert_lookup.
  destruct (decide (fd' = fd /\ e ∈ elements es)), (decide (fd' = fd /\ e ∈ es));
    set_solver.
Qed.

(** [PollLikeReactor.bind] under the invariant: it succeeds, keeps the
    invariant, adds the events to the fd's event set, stores the callback
    for exactly those events of the fd and leaves the other fds alone. *)
Theorem poll_bind_spec (fd : Z) (x : events_arg) (cb : Cb) (s : @reg Cb) :
  reg_inv s ->
  let s' := snd (poll_bind fd x cb s) in
  fst (poll_bind fd x cb s) = Ok tt
  /\ reg_inv s'
  /\ fd_events s' !! fd = Some (default ∅ (fd_events s !! fd) ∪ to_event_set x)
  /\ (forall fd' e, callbacks (base s') !! (fd', e)
        = if decide (fd' = fd /\ e ∈ to_event_set x) then Some cb
          else callbacks (base s) !! (fd', e))
  /\ (forall fd', fd' <> fd -> fd_events s' !! fd' = fd_events s !! fd'
                               /\ pollster s' !! fd' = pollster s !! fd').
Proof.
  intros [Hp Hc]. unfold poll_bind, bind, get, modify.
  destruct (fd_events s !! fd) as [cur|] eqn:Hfd.
  - unfold pollster_modify. cbn [set_fd_events pollster fd_events]. rewrite (Hp fd), Hfd. cbn.
    split; [done|]. split; [split|split; [by rewrite lookup_insert_eq|split]].
    + intros fd'. cbn. rewrite !lookup_insert. case_decide; [subst; done|]. apply Hp.
    + intros fd' e. cbn. rewrite bind_callbacks_lookup, lookup_insert.
      destruct (decide (fd = fd')) as [<-|Hne].
      * case_decide as Hd.
        { split; intros _; [|by eexists]. eexists. split; [done|set_solver]. }
        rewrite (Hc fd e), Hfd. assert (e ∉ to_event_set x) by tauto.
        split; intros [es' [Hes He]]; simplify_eq.
        { eexists. split; [done|set_solver]. }
        { eexists. split; [done|set_solver]. }
      * rewrite decide_False by (intros [? _]; congruence). apply Hc.
    + intros fd' e. by rewrite bind_callbacks_lookup.
    + intros fd' Hne. cbn. rewrite !lookup_insert_ne by done. done.
  - unfold pollster_register. cbn [set_fd_events pollster fd_events]. rewrite (Hp fd), Hfd. cbn.
    split; [done|]. split; [split|split; [rewrite lookup_insert_eq; f_equal; set_solver|split]].
    + intros fd'. cbn. rewrite !lookup_insert. case_decide; [subst; done|]. apply Hp.
    + intros fd' e. cbn. rewrite bind_callbacks_lookup, lookup_insert.
      destruct (decide (fd = fd')) as [<-|Hne].
      * case_decide as Hd.
        { split; intros _; [|by eexists]. eexists. split; [done|set_solver]. }
        rewrite (Hc fd e), Hfd. assert (e ∉ to_event_set x) by tauto.
        split; intros [es' [Hes He]]; simplify_eq. set_solver.
      * rewrite decide_False by (intros [? _]; congruence). apply Hc.
    + intros fd' e. by rewrite bind_callbacks_lookup.
    + intros fd' Hne. cbn. rewrite !lookup_insert_ne by done. done.
Qed.

Lemma unbind_callbacks_lookup (fd : Z) (es : gset event)
    (m : gmap (Z * event) Cb) (fd' : Z) (e : event) :
  fold_left (fun m event => delete (fd, event) m) (elements es) m !! (fd', e)
  = if decide (fd' = fd /\ e ∈ es) then None else m !! (fd', e).
Proof.
  rewrite fold_delete_lookup.
  destruct (decide (fd' = fd /\ e ∈ elements es)), (decide (fd' = fd /\ e ∈ es));
    set_solver.
Qed.

Lemma del_callbacks_fd_events (fd : Z) (l : list event) (s : @reg Cb) :
  fd_events (snd (del_callbacks fd l s)) = fd_events s
  /\ pollster (snd (del_callbacks fd l s)) = pollster s.
Proof.
  revert s. induction l as [|e l IH]; intros s; simpl; [done|].
  destruct (callbacks (base s) !! (fd, e)); [|done]. apply (IH (set_callbacks _ s)).
Qed.

(** [PollLikeReactor.unbind] of events the fd is watched for (all of them
    when none are given): it succeeds, keeps the invariant, removes the
    events from the fd's set (the fd leaves [fd_events] when nothing is
    left), drops exactly their callbacks and leaves the other fds alone. *)
Theorem poll_unbind_spec (fd : Z) (ev : option events_arg) (s : @reg Cb) (cur : gset event) :
  reg_inv s -> fd_events s !! fd = Some cur ->
  let es := match ev with None => cur | Some x => to_event_set x end in
  es ⊆ cur ->
  let s' := snd (poll_unbind fd ev s) in
  fst (poll_unbind fd ev s) = Ok tt
  /\ reg_inv s'
  /\ fd_events s' !! fd = (if decide (cur ∖ es = ∅) then None else Some (cur ∖ es))
  /\ (forall fd' e, callbacks (base s') !! (fd', e)
        = if decide (fd' = fd /\ e ∈ es) then None else callbacks (base s) !! (fd', e))
  /\ (forall fd', fd' <> fd -> fd_events s' !! fd' = fd_events s !! fd'
                               /\ pollster s' !! fd' = pollster s !! fd').
Proof.
  intros [Hp Hc] Hfd es Hsub. cbv zeta. unfold poll_unbind, bind, get. rewrite Hfd.
  fold es. unfold modify at 1.
  assert (Hall : forall (s0 : @reg Cb), callbacks (base s0) = callbacks (base s) ->
            forall e, e ∈ elements es -> is_Some (callbacks (base s0) !! (fd, e))).
  { intros s0 Hs0 e He. rewrite Hs0. apply Hc. exists cur. set_solver. }
  assert (Hps : pollster s !! fd = Some (event_set_to_flags (base s) cur))
    by (rewrite Hp, Hfd; done).
  destruct (decide (cur ∖ es = ∅)) as [Hemp|Hne].
  - unfold pollster_unregister. cbn. rewrite Hps. cbn.
    rewrite del_callbacks_ok; [|apply Hall; done|apply NoDup_elements]. cbn.
    split; [done|]. split; [split|split; [by rewrite lookup_delete_eq|split]].
    + intros fd'. cbn. rewrite !lookup_delete, !lookup_insert.
      case_decide; [done|]. apply Hp.
    + intros fd' e. cbn. rewrite unbind_callbacks_lookup, lookup_delete, lookup_insert.
      destruct (decide (fd = fd')) as [<-|Hne].
      * case_decide as Hd; [split; [intros [? ?]; done|intros [? [? _]]; done]|].
        split; [|intros [? [? _]]; done]. intros Hs. apply Hc in Hs as [es' [Hes He]].
        rewrite Hfd in Hes. simplify_eq. exfalso. apply Hd. split; [done|]. set_solver.
      * rewrite decide_False by (intros [? _]; congruence). apply Hc.
    + intros fd' e. by rewrite unbind_callbacks_lookup.
    + intros fd' Hne. cbn. rewrite lookup_delete_ne, lookup_insert_ne by done.
      rewrite lookup_delete_ne by done. done.
  - unfold pollster_modify. cbn. rewrite Hps. cbn.
    rewrite del_callbacks_ok; [|apply Hall; done|apply NoDup_elements]. cbn.
    split; [done|]. split; [split|split; [by rewrite lookup_insert_eq|split]].
    + intros fd'. cbn. rewrite !lookup_insert. case_decide; [subst; done|]. apply Hp.
    + intros fd' e. cbn. rewrite unbind_callbacks_lookup, lookup_insert.
      destruct (decide (fd = fd')) as [<-|Hne'].
      * case_decide as Hd.
        { split; [intros [? ?]; done|]. intros [es' [[= <-] He]]. set_solver. }
        rewrite (Hc fd e), Hfd. assert (e ∉ es) by tauto.
        split; intros [es' [Hes He]]; simplify_eq; (eexists; split; [done|set_solver]).
      * rewrite decide_False by (intros [? _]; congruence). apply Hc.
    + intros fd' e. by rewrite unbind_callbacks_lookup.
    + intros fd' Hne'. cbn. rewrite !lookup_insert_ne by done. done.
Qed.

(** The errors of [PollLikeReactor.unbind]: an fd that is not watched
    raises KeyError and changes nothing; an event the fd is not watched for
    raises KeyError after [fd_events] and the pollster were already
    updated: both hold the remaining events of the fd (its flags, for the
    pollster), and the fd has left both when no event remains. *)
Theorem poll_unbind_errors (fd : Z) :
  (forall ev (s : @reg Cb), fd_events s !! fd = None -> poll_unbind fd ev s = (Raise KeyError, s))
  /\ (forall x (s : @reg Cb) cur e, reg_inv s -> fd_events s !! fd = Some cur ->
        e ∈ to_event_set x -> e ∉ cur ->
        fst (poll_unbind fd (Some x) s) = Raise KeyError
        /\ fd_events (snd (poll_unbind fd (Some x) s)) !! fd
           = (if decide (cur ∖ to_event_set x = ∅) then None else Some (cur ∖ to_event_set x))
        /\ pollster (snd (poll_unbind fd (Some x) s)) !! fd
           = if decide (cur ∖ to_event_set x = ∅) then None
             else Some (event_set_to_flags (base s) (cur ∖ to_event_set x))).
Proof.
  split.
  - intros ev s Hfd. unfold poll_unbind, bind, get. by rewrite Hfd.
  - intros x s cur e [Hp Hc] Hfd He Hcur.
    assert (Hps : pollster s !! fd = Some (event_set_to_flags (base s) cur))
      by (rewrite Hp, Hfd; done).
    assert (Hnone : forall s0 : @reg Cb, callbacks (base s0) = callbacks (base s) ->
              callbacks (base s0) !! (fd, e) = None).
    { intros s0 Hs0. rewrite Hs0. apply eq_None_not_Some. intros Hs.
      apply Hc in Hs as [es [Hes He']]. congruence. }
    unfold poll_unbind, bind, get. rewrite Hfd. unfold modify at 1.
    destruct (decide (cur ∖ to_event_set x = ∅)) as [Hemp|Hne].
    + unfold pollster_unregister. cbn. rewrite Hps. cbn.
      split; [apply (del_callbacks_missing _ _ _ e); [set_solver|by apply Hnone]|].
      rewrite (proj1 (del_callbacks_fd_events _ _ _)), (proj2 (del_callbacks_fd_events _ _ _)).
      cbn. by rewrite !lookup_delete_eq.
    + unfold pollster_modify. cbn. rewrite Hps. cbn.
      split; [apply (del_callbacks_missing _ _ _ e); [set_solver|by apply Hnone]|].
      rewrite (proj1 (del_callbacks_fd_events _ _ _)), (proj2 (del_callbacks_fd_events _ _ _)).
      cbn. by rewrite !lookup_insert_eq.
Qed.

(** Binding an fd that is not watched and then unbinding it with no
    events restores the reactor exactly. *)
Theorem poll_bind_unbind (fd : Z) (x : events_arg) (cb : Cb) (s : @reg Cb) :
  reg_inv s -> fd_events s !! fd = None ->
  poll_unbind fd None (snd (poll_bind fd x cb s)) = (Ok tt, s).
Proof.
  intros [Hp Hc] Hfd.
  assert (Hps : pollster s !! fd = None) by (rewrite Hp, Hfd; done).
  unfold poll_bind, bind, get, modify. rewrite Hfd. unfold pollster_register. cbn.
  rewrite Hps. cbn. unfold poll_unbind, bind, get. cbn. rewrite lookup_insert_eq. cbn.
  rewrite decide_True by set_solver. unfold pollster_unregister. cbn.
  rewrite lookup_insert_eq. cbn. rewrite del_callbacks_ok; [|cbn|apply NoDup_elements].
  2:{ intros e He. cbn. rewrite bind_callbacks_lookup, decide_True; [by eexists|].
      split; [done|]. by apply elem_of_elements. }
  cbn. f_equal. destruct s as [[cbs st rf wf ef] fe ps]; cbn in *.
  unfold set_callbacks; cbn. f_equal; [f_equal|..].
  - apply map_eq. intros [fd' e].
    rewrite unbind_callbacks_lookup, bind_callbacks_lookup.
    case_decide as Hd; [|done]. destruct Hd as [-> _].
    symmetry. apply eq_None_not_Some. intros Hs.
    apply Hc in Hs as [es [Hes _]]. congruence.
  - apply map_eq. intros k. rewrite lookup_delete, !lookup_insert.
    case_decide; subst; [by symmetry|done].
  - apply map_eq. intros k. rewrite lookup_delete, lookup_insert.
    case_decide; subst; [by symmetry|done].
Qed.


Lemma fold_lor_acc (l : list Z) (acc : Z) :
  fold_left Z.lor l acc = Z.lor acc (fold_left Z.lor l 0).
Proof.
  revert acc. induction l as [|a l IH]; intros acc; cbn; [by rewrite Z.lor_0_r|].
  rewrite IH, (IH (Z.lor 0 a)), Z.lor_0_l. by rewrite Z.lor_assoc.
Qed.

Lemma land_lor_zero (a b g : Z) :
  Z.land (Z.lor a b) g = 0 <-> Z.land a g = 0 /\ Z.land b g = 0.
Proof. rewrite Z.land_lor_distr_l. apply Z.lor_eq_0_iff. Qed.

Lemma fold_lor_zero (l : list Z) (g : Z) :
  Z.land (fold_left Z.lor l 0) g = 0 <-> Forall (fun f => Z.land f g = 0) l.
Proof.
  induction l as [|a l IH]; cbn; [split; [constructor|done]|].
  rewrite fold_lor_acc, land_lor_zero, IH, Z.lor_0_l, Forall_cons. done.
Qed.

Lemma event_set_to_flags_zero (r : @poll_like Cb) (es : gset event) (g : Z) :
  Z.land (event_set_to_flags r es) g = 0 <->
  forall e, e ∈ es -> Z.land (ev_flag r e) g = 0.
Proof.
  unfold event_set_to_flags.
  assert (Hgen : forall l acc, Z.land (fold_left (fun flag event => match event with
      | READABLE => Z.lor flag (read_flag r) | WRITABLE => Z.lor flag (write_flag r)
      | ERROR => fold_left (fun flag err_flag => Z.lor flag err_flag) (err_flags r) flag
      end) l acc) g = 0 <->
      Z.land acc g = 0 /\ Forall (fun e => Z.land (ev_flag r e) g = 0) l).
  { induction l as [|e l IH]; intros acc; cbn; [split; [done|tauto]|].
    rewrite IH, Forall_cons. destruct e; cbn;
      [rewrite land_lor_zero|rewrite land_lor_zero|rewrite fold_lor_acc, land_lor_zero]; tauto. }
  rewrite Hgen, Z.land_0_l, Forall_forall.
  setoid_rewrite elem_of_elements. tauto.
Qed.

Lemma flags_of_event_set (r : @poll_like Cb) (es : gset event) :
  read_flag r <> 0 -> write_flag r <> 0 -> Z.land (read_flag r) (write_flag r) = 0 ->
  Forall (fun f => Z.land (read_flag r) f = 0 /\ Z.land (write_flag r) f = 0) (err_flags r) ->
  Exists (fun f => f <> 0) (err_flags r) ->
  flags_to_event_set r (event_set_to_flags r es) =
    (if decide (READABLE ∈ es) then [READABLE] else [])
    ++ (if decide (WRITABLE ∈ es) then [WRITABLE] else [])
    ++ (if decide (ERROR ∈ es) then [ERROR] else []).
Proof.
  intros Hr Hw Hrw Hdisj Hex. rewrite Forall_forall in Hdisj.
  assert (Herr : forall g, (forall f, f ∈ err_flags r -> Z.land f g = 0) ->
            Z.land (ev_flag r ERROR) g = 0).
  { intros g Hg. cbn. apply fold_lor_zero, Forall_forall. done. }
  assert (HR : Z.land (event_set_to_flags r es) (read_flag r) = 0 <-> READABLE ∉ es).
  { rewrite event_set_to_flags_zero. split.
    - intros H Hin. apply H in Hin. cbn in Hin. by rewrite Z.land_diag in Hin.
    - intros Hn [] He; [done|cbn; by rewrite Z.land_comm|].
      apply Herr. intros f Hf. rewrite Z.land_comm. by apply Hdisj. }
  assert (HW : Z.land (event_set_to_flags r es) (write_flag r) = 0 <-> WRITABLE ∉ es).
  { rewrite event_set_to_flags_zero. split.
    - intros H Hin. apply H in Hin. cbn in Hin. by rewrite Z.land_diag in Hin.
    - intros Hn [] He; [cbn; done|done|].
      apply Herr. intros f Hf. rewrite Z.land_comm. by apply Hdisj. }
  assert (HE : existsb (fun e => negb (Z.land (event_set_to_flags r es) e =? 0)) (err_flags r)
               = true <-> ERROR ∈ es).
  { rewrite existsb_exists. split.
    - intros [f [Hf Hnz]]. apply list_elem_of_In in Hf.
      destruct (decide (ERROR ∈ es)) as [|Hn]; [done|]. exfalso.
      apply negb_true_iff, Z.eqb_neq in Hnz. apply Hnz, event_set_to_flags_zero.
      intros [] He; cbn; [apply Hdisj, Hf|apply Hdisj, Hf|done].
    - intros HinE. apply Exists_exists in Hex as [f [Hf Hnz]].
      exists f. split; [by apply list_elem_of_In|].
      apply negb_true_iff, Z.eqb_neq. intros H0.
      rewrite event_set_to_flags_zero in H0. specialize (H0 ERROR HinE). cbn in H0.
      rewrite fold_lor_zero, Forall_forall in H0. specialize (H0 f Hf).
      by rewrite Z.land_diag in H0. }
  unfold flags_to_event_set. f_equal; [|f_equal].
  - destruct (Z.eqb_spec (Z.land (event_set_to_flags r es) (read_flag r)) 0),
      (decide (READABLE ∈ es)); tauto.
  - destruct (Z.eqb_spec (Z.land (event_set_to_flags r es) (write_flag r)) 0),
      (decide (WRITABLE ∈ es)); tauto.
  - destruct (decide (ERROR ∈ es)) as [Hin|Hn]; [by rewrite (proj2 HE Hin)|].
    destruct (existsb _ _); [|done]. exfalso. apply Hn, HE. done.
Qed.

(** [_flags_to_event_set] undoes [_event_set_to_flags]: when the read and
    write flags are nonzero and disjoint from each other and from every
    error flag, and some error flag is nonzero, converting an event set to
    flags and back gives the events of the set, in the order READABLE,
    WRITABLE, ERROR. *)
Theorem flags_roundtrip (r : @poll_like Cb) (es : gset event) :
  read_flag r <> 0 -> write_flag r <> 0 -> Z.land (read_flag r) (write_flag r) = 0 ->
  Forall (fun f => Z.land (read_flag r) f = 0 /\ Z.land (write_flag r) f = 0) (err_flags r) ->
  Exists (fun f => f <> 0) (err_flags r) ->
  flags_to_event_set r (event_set_to_flags r es) =
    (if decide (READABLE ∈ es) then [READABLE] else [])
    ++ (if decide (WRITABLE ∈ es) then [WRITABLE] else [])
    ++ (if decide (ERROR ∈ es) then [ERROR] else []).
Proof. apply flags_of_event_set. Qed.


(** After [bind] of an fd that was not watched, the pollster holds the
    flags of its events, and when the poll reports those flags for it,
    [poll] calls the new callback for each bound event (READABLE, WRITABLE,
    ERROR in that order) and then the step callbacks. *)
Theorem poll_bind_then_poll (fd : Z) (x : events_arg) (cb : Cb) (s : @reg Cb) :
  flags_ok (base s) -> reg_inv s -> fd_events s !! fd = None ->
  let s' := snd (poll_bind fd x cb s) in
  let f := event_set_to_flags (base s) (to_event_set x) in
  pollster s' !! fd = Some f
  /\ poll_like_poll (base s') [(fd, f)]
     = (if decide (READABLE ∈ to_event_set x) then [Dispatch (Some cb) fd READABLE] else [])
       ++ (if decide (WRITABLE ∈ to_event_set x) then [Dispatch (Some cb) fd WRITABLE] else [])
       ++ (if decide (ERROR ∈ to_event_set x) then [Dispatch (Some cb) fd ERROR] else [])
       ++ run_step_callbacks (step_callbacks (base s)).
Proof.
  intros (Hr & Hw & Hrw & Hd & He) [Hp Hc] Hfd. cbv zeta.
  assert (Hps : pollster s !! fd = None) by (rewrite Hp, Hfd; done).
  unfold poll_bind, bind, get, modify. rewrite Hfd. unfold pollster_register. cbn.
  rewrite Hps. cbn. split; [by rewrite lookup_insert_eq|].
  unfold poll_like_poll. cbn [flat_map]. rewrite app_nil_r.
  match goal with |- context [flags_to_event_set ?r _] =>
    replace (flags_to_event_set r) with (flags_to_event_set (base s)) by reflexivity end.
  rewrite flags_of_event_set by done.
  rewrite <- !app_assoc. f_equal; [|f_equal; [|f_equal]];
  unfold dispatch_if; cbn [callbacks]; rewrite ?bind_callbacks_lookup.
  all: destruct (decide (READABLE ∈ to_event_set x)), (decide (WRITABLE ∈ to_event_set x)),
    (decide (ERROR ∈ to_event_set x)); cbn [app];
    repeat case_decide; try done; exfalso; set_solver.
Qed.



(** [SelectReactor.unbind] of the events just bound leaves what unbinding
    them from the old reactor leaves; for an fd that was not watched,
    [unbind] with no events after [bind] restores the reactor. *)
Theorem select_bind_unbind (fd : Z) (x : events_arg) (cb : Cb) (r : @select_r Cb) :
  select_unbind fd (Some x) (select_bind fd x cb r) = select_unbind fd (Some x) r
  /\ (readers r !! fd = None -> writers r !! fd = None -> errors r !! fd = None ->
      select_unbind fd None (select_bind fd x cb r) = r).
Proof.
  assert (Hdel : forall m : gmap Z Cb, delete fd (<[fd := cb]> m)
            = if decide (is_Some (m !! fd)) then delete fd m else m).
  { intros m. destruct (decide (is_Some (m !! fd))) as [|Hs]; [apply delete_insert_eq|].
    apply map_eq. intros k. rewrite lookup_delete, lookup_insert.
    destruct (decide (fd = k)) as [<-|]; [|done]. symmetry. by apply eq_None_not_Some. }
  split.
  - unfold select_unbind, select_bind. cbn. f_equal;
      repeat case_decide; try done; try rewrite Hdel; repeat case_decide; try done;
      exfalso; try tauto; intuition; rewrite lookup_insert_eq in *; eauto.
  - intros Hr Hw He. destruct r as [rd wr er st]; cbn in *.
    unfold select_unbind, select_bind. cbn. f_equal;
      repeat case_decide; try done; try rewrite Hdel; repeat case_decide; try done;
      try (apply map_eq; intros k; rewrite lookup_delete; case_decide; subst; done);
      exfalso; intuition; rewrite lookup_insert_eq in *; eauto; set_solver.
Qed.

Lemma lookup_if_insert (P : Prop) `{Decision P} (fd : Z) (cb : Cb) (m : gmap Z Cb) (fd' : Z) :
  (if decide P then <[fd := cb]> m else m) !! fd'
  = if decide (fd' = fd /\ P) then Some cb else m !! fd'.
Proof.
  destruct (decide P), (decide (fd' = fd /\ P)) as [[-> Hp]|Hn]; try tauto.
  - by rewrite lookup_insert_eq.
  - rewrite lookup_insert_ne; [done|]. intros ->. tauto.
Qed.

(** After [SelectReactor.bind] with at least one event, [poll] dispatches
    every fd that select reports to the new callback for the bound events
    of the bound fd, and to the old callbacks otherwise. *)
Theorem select_bind_then_poll (fd : Z) (x : events_arg) (cb : Cb) (r : @select_r Cb)
    (rlist wlist xlist : list Z) :
  to_event_set x <> ∅ ->
  select_poll (select_bind fd x cb r) rlist wlist xlist
  = map (fun fd' => Dispatch (if decide (fd' = fd /\ READABLE ∈ to_event_set x)
                              then Some cb else readers r !! fd') fd' READABLE) rlist
    ++ map (fun fd' => Dispatch (if decide (fd' = fd /\ WRITABLE ∈ to_event_set x)
                                 then Some cb else writers r !! fd') fd' WRITABLE) wlist
    ++ map (fun fd' => Dispatch (if decide (fd' = fd /\ ERROR ∈ to_event_set x)
                                 then Some cb else errors r !! fd') fd' ERROR) xlist
    ++ run_step_callbacks (s_step_callbacks r).
Proof.
  intros Hne. unfold select_poll.
  assert (Hc : has_clients (select_bind fd x cb r) = true).
  { unfold has_clients, select_bind. cbn.
    destruct (decide (READABLE ∈ to_event_set x)).
    { rewrite bool_decide_false by (apply insert_non_empty). done. }
    destruct (decide (WRITABLE ∈ to_event_set x)).
    { rewrite (bool_decide_false (<[fd:=cb]> (writers r) = ∅)) by (apply insert_non_empty).
      cbn. by rewrite orb_true_r. }
    destruct (decide (ERROR ∈ to_event_set x)).
    { rewrite (bool_decide_false (<[fd:=cb]> (errors r) = ∅)) by (apply insert_non_empty).
      cbn. by rewrite orb_true_r. }
    exfalso. apply Hne. apply set_eq. intros []; set_solver. }
  rewrite Hc. cbn. unfold select_bind; cbn.
  f_equal; [|f_equal; [|f_equal]]; apply map_ext; intros fd';
    f_equal; apply lookup_if_insert.
Qed.

End Facts.

(** Two reactors with epoll's flag values: an empty one, and one watching
    fd 3 for READABLE and WRITABLE. *)
Lemma reg_inv_empty_epoll :
  reg_inv (@mk_reg nat (@mk_poll_like nat ∅ [] 1 4 [16; 8]) ∅ ∅).
Proof.
  split.
  - intros fd. cbn. by rewrite !lookup_empty.
  - intros fd e. cbn. rewrite !lookup_empty.
    split; [intros [? Hx]; done|intros [? [Hx _]]; done].
Qed.

Lemma reg_inv_one_epoll :
  reg_inv (@mk_reg nat (@mk_poll_like nat
             (<[(3, READABLE) := 7%nat]> (<[(3, WRITABLE) := 7%nat]> ∅)) [] 1 4 [16; 8])
             (<[3 := {[READABLE; WRITABLE]}]> ∅) (<[3 := 5]> ∅)).
Proof.
  split.
  - intros fd. cbn. rewrite !lookup_insert, !lookup_empty.
    case_decide; [subst; vm_compute; reflexivity|done].
  - intros fd e. cbn. rewrite !lookup_insert, !lookup_empty.
    repeat case_decide; simplify_eq;
      (split; [intros [? Hx]|intros [es [Hes He]]]); simplify_eq;
      try (by eexists); try (eexists; split; [done|set_solver]); try done;
      destruct e; set_solver.
Qed.

Lemma flags_roundtrip_witness :
  flags_to_event_set (@mk_poll_like nat ∅ [] 1 4 [16; 8])
    (event_set_to_flags (@mk_poll_like nat ∅ [] 1 4 [16; 8]) {[READABLE; ERROR]})
  = [READABLE; ERROR].
Proof.
  rewrite (flags_roundtrip (@mk_poll_like nat ∅ [] 1 4 [16; 8]) {[READABLE; ERROR]}).
  - rewrite decide_True by set_solver. rewrite decide_False by set_solver.
    rewrite decide_True by set_solver. reflexivity.
  - cbn. lia.
  - cbn. lia.
  - reflexivity.
  - repeat constructor.
  - apply Exists_cons_hd. cbn. lia.
Defined.

Lemma poll_bind_spec_witness :
  fd_events (snd (poll_bind 3 (OneEvent READABLE) 7%nat
                    (@mk_reg nat (@mk_poll_like nat ∅ [] 1 4 [16; 8]) ∅ ∅))) !! 3
  = Some {[READABLE]}.
Proof.
  destruct (poll_bind_spec 3 (OneEvent READABLE) 7%nat _ reg_inv_empty_epoll)
    as (_ & _ & H & _).
  rewrite H. cbn. f_equal; set_solver.
Defined.

Lemma poll_unbind_spec_witness :
  fd_events (snd (poll_unbind 3 (Some (OneEvent READABLE))
    (@mk_reg nat (@mk_poll_like nat
             (<[(3, READABLE) := 7%nat]> (<[(3, WRITABLE) := 7%nat]> ∅)) [] 1 4 [16; 8])
             (<[3 := {[READABLE; WRITABLE]}]> ∅) (<[3 := 5]> ∅)))) !! 3
  = Some {[WRITABLE]}.
Proof.
  destruct (poll_unbind_spec 3 (Some (OneEvent READABLE)) _ {[READABLE; WRITABLE]}
              reg_inv_one_epoll) as (_ & _ & H & _).
  - cbn. by rewrite lookup_insert_eq.
  - cbn. set_solver.
  - rewrite H. rewrite decide_False by (cbn; set_solver). cbn. f_equal; set_solver.
Defined.

Lemma poll_unbind_errors_witness :
  poll_unbind 3 None (@mk_reg nat (@mk_poll_like nat ∅ [] 1 4 [16; 8]) ∅ ∅)
  = (Raise KeyError, @mk_reg nat (@mk_poll_like nat ∅ [] 1 4 [16; 8]) ∅ ∅)
  /\ fst (poll_unbind 3 (Some (EventList [READABLE; ERROR]))
    (@mk_reg nat (@mk_poll_like nat
             (<[(3, READABLE) := 7%nat]> (<[(3, WRITABLE) := 7%nat]> ∅)) [] 1 4 [16; 8])
             (<[3 := {[READABLE; WRITABLE]}]> ∅) (<[3 := 5]> ∅)))
     = Raise KeyError.
Proof.
  split.
  - apply (proj1 (poll_unbind_errors 3)). cbn. by rewrite lookup_empty.
  - apply (proj2 (poll_unbind_errors 3) _ _ {[READABLE; WRITABLE]} ERROR reg_inv_one_epoll).
    + cbn. by rewrite lookup_insert_eq.
    + cbn. set_solver.
    + set_solver.
Defined.

Lemma poll_bind_unbind_witness :
  poll_unbind 3 None (snd (poll_bind 3 (EventList [READABLE; WRITABLE]) 7%nat
    (@mk_reg nat (@mk_poll_like nat ∅ [] 1 4 [16; 8]) ∅ ∅)))
  = (Ok tt, @mk_reg nat (@mk_poll_like nat ∅ [] 1 4 [16; 8]) ∅ ∅).
Proof.
  apply poll_bind_unbind; [exact reg_inv_empty_epoll|]. cbn. by rewrite lookup_empty.
Defined.

Lemma poll_bind_then_poll_witness :
  poll_like_poll (base (snd (poll_bind 3 (EventList [READABLE; ERROR]) 7%nat
    (@mk_reg nat (@mk_poll_like nat ∅ [] 1 4 [16; 8]) ∅ ∅)))) [(3, 25)]
  = [Dispatch (Some 7%nat) 3 READABLE; Dispatch (Some 7%nat) 3 ERROR].
Proof.
  destruct (poll_bind_then_poll 3 (EventList [READABLE; ERROR]) 7%nat
              (@mk_reg nat (@mk_poll_like nat ∅ [] 1 4 [16; 8]) ∅ ∅))
    as [_ H].
  - split; [cbn; lia|]. split; [cbn; lia|]. split; [reflexivity|].
    split; [repeat constructor|]. apply Exists_cons_hd. cbn. lia.
  - exact reg_inv_empty_epoll.
  - cbn. by rewrite lookup_empty.
  - assert (Hf : event_set_to_flags (base (@mk_reg nat (@mk_poll_like nat ∅ [] 1 4 [16; 8]) ∅ ∅))
                   (to_event_set (EventList [READABLE; ERROR])) = 25)
      by (vm_compute; reflexivity).
    rewrite Hf in H. rewrite H. vm_compute. reflexivity.
Defined.

Lemma select_bind_unbind_witness :
  select_unbind 3 None (select_bind 3 (OneEvent READABLE) 7%nat
    (@mk_select nat (<[4 := 1%nat]> ∅) ∅ ∅ []))
  = @mk_select nat (<[4 := 1%nat]> ∅) ∅ ∅ [].
Proof.
  apply (proj2 (select_bind_unbind 3 (OneEvent READABLE) 7%nat _));
    vm_compute; reflexivity.
Defined.

Lemma select_bind_then_poll_witness :
  select_poll (select_bind 3 (OneEvent READABLE) 7%nat
    (@mk_select nat (<[4 := 1%nat]> ∅) ∅ ∅ [])) [3; 4] [] []
  = [Dispatch (Some 7%nat) 3 READABLE; Dispatch (Some 1%nat) 4 READABLE].
Proof.
  rewrite select_bind_then_poll by (cbn; set_solver).
  vm_compute. reflexivity.
Defined.

End ReactorRegFacts.

Module NetMessageFacts.
Import NetProto AnnounceFacts PeerMapFacts.

(** One pass of the loop with less than a packet left aborts the
    transaction and stops. *)
Lemma handle_loop_short (fuel : nat) (host : ip) (now : Z) (v : bytes) (p : nat) (s : state) :
  (length v < p + PACKET_SIZE)%nat ->
  handle_loop (S fuel) host now (BytesIO.mk_bio v p) s = (Ok (BytesIO.mk_bio v p), s).
Proof.
  intros Hl. cbn [handle_loop]. unfold BytesIO.get_transaction, BytesIO.get_stream,
    BytesIO.seek, BytesIO.new, BytesIO.read. cbn.
  unfold PACKET_SIZE in *.
  rewrite (proj2 (Nat.leb_le _ _)); [done|]. rewrite length_take, length_drop. lia.
Qed.

Lemma handle_loop_long (fuel : nat) (host : ip) (now : Z) (v : bytes) (p : nat) (s : state) :
  (p + PACKET_SIZE <= length v)%nat ->
  let packet := firstn PACKET_SIZE (skipn p v) in
  let bs := BytesIO.mk_bio v (p + PACKET_SIZE) in
  handle_loop (S fuel) host now (BytesIO.mk_bio v p) s =
    (if negb (Announce.parses packet) then handle_loop fuel host now bs
     else let! message := lift (Announce.unserialize packet) in
          do! record_announce host (Announce.hostname message) now in
          handle_loop fuel host now bs) s.
Proof.
  intros Hl packet bs. cbn [handle_loop]. unfold BytesIO.get_transaction, BytesIO.get_stream,
    BytesIO.seek, BytesIO.new, BytesIO.read. cbn.
  unfold PACKET_SIZE in *.
  assert (Hlen : length (take 512 (drop p v)) = 512%nat).
  { rewrite length_take, length_drop. lia. }
  rewrite Hlen. cbn.
  unfold BytesIO.commit, BytesIO.commit_ops, BytesIO.bytes_eqb. cbn.
  rewrite bool_decide_true by done. cbn. reflexivity.
Qed.

Lemma handle_loop_rest (fuel : nat) (host : ip) (now : Z) (v : bytes) (p : nat)
    (s s' : state) (bs : BytesIO.bio) :
  handle_loop fuel host now (BytesIO.mk_bio v p) s = (Ok bs, s') ->
  (length v < p + PACKET_SIZE * fuel)%nat -> (p <= length v)%nat ->
  exists k, bs = BytesIO.mk_bio v (p + PACKET_SIZE * k)
    /\ (length v < p + PACKET_SIZE * k + PACKET_SIZE)%nat
    /\ (p + PACKET_SIZE * k <= length v)%nat.
Proof.
  revert p s. induction fuel as [|fuel IH]; intros p s Hrun Hf Hp; [lia|].
  destruct (decide (length v < p + PACKET_SIZE)%nat) as [Hs|Hs].
  - rewrite handle_loop_short in Hrun by done. injection Hrun as <- _.
    exists 0%nat. unfold PACKET_SIZE in *. split; [f_equal; lia|]. lia.
  - rewrite handle_loop_long in Hrun by (unfold PACKET_SIZE in *; lia). cbv zeta in Hrun.
    assert (Hrec : forall s1, handle_loop fuel host now (BytesIO.mk_bio v (p + PACKET_SIZE)) s1
                              = (Ok bs, s') ->
              exists k, bs = BytesIO.mk_bio v (p + PACKET_SIZE * k)
                /\ (length v < p + PACKET_SIZE * k + PACKET_SIZE)%nat
                /\ (p + PACKET_SIZE * k <= length v)%nat).
    { intros s1 H1. unfold PACKET_SIZE in *.
      assert (Hf' : (length v < p + 512 + 512 * fuel)%nat) by lia.
      assert (Hp' : (p + 512 <= length v)%nat) by lia.
      destruct (IH _ _ H1 Hf' Hp') as (k & -> & H2 & H3).
      exists (S k). split; [f_equal; lia|]. lia. }
    destruct (negb _); [by apply (Hrec s)|].
    unfold bind, lift in Hrun.
    destruct (Announce.unserialize _) as [m|e]; [|discriminate].
    destruct (record_announce _ _ _ s) as [[[]|e] s1]; [|discriminate].
    by apply (Hrec s1).
Qed.

Lemma read_all_at (v : bytes) (p : nat) :
  fst (BytesIO.read_all (BytesIO.mk_bio v p)) = drop p v.
Proof.
  unfold BytesIO.read_all, BytesIO.read. cbn. apply take_ge. rewrite length_drop. lia.
Qed.

(** [on_message] appends the datagram to the stored buffer and runs the
    packet loop over the result. *)
Lemma on_message_unfold (a : ip) (data : bytes) (now : Z) (s : state) :
  let total := default [] (peer_buffers s !! a) ++ data in
  on_message a data now s =
    (let! bs := handle_loop (S (length total)) a now (BytesIO.mk_bio total 0) in
     modify (fun s => set_buffers (<[a := fst (BytesIO.read_all bs)]> (peer_buffers s)) s))
    (set_buffers (<[a := total]> (peer_buffers s)) s).
Proof.
  intros total.
  assert (Hget : exists s1, buffers_get a s = (Ok (default [] (peer_buffers s !! a)), s1)
                   /\ set_buffers (<[a := total]> (peer_buffers s1)) s1
                      = set_buffers (<[a := total]> (peer_buffers s)) s).
  { unfold buffers_get. destruct (peer_buffers s !! a) eqn:E; eexists; split; try done.
    destruct s; cbn. by rewrite insert_insert_eq. }
  destruct Hget as (s1 & Hg & Hs1).
  unfold on_message, bind at 1. rewrite Hg. unfold bind at 1, modify. fold total.
  rewrite Hs1. unfold handle_messages, bind at 1, buffers_get. cbn [peer_buffers set_buffers].
  rewrite lookup_insert_eq. reflexivity.
Qed.

(** [on_message] keeps the incomplete tail of a peer's buffer: when the
    stored bytes plus the datagram make less than one packet, nothing is
    parsed and the buffer becomes their concatenation; after any call that
    succeeds, the buffer holds exactly the last [len mod PACKET_SIZE]
    bytes of that concatenation. *)
Theorem on_message_keeps_partial (a : ip) (data : bytes) (now : Z) (s : state) :
  let total := default [] (peer_buffers s !! a) ++ data in
  ((length total < PACKET_SIZE)%nat ->
     on_message a data now s = (Ok tt, set_buffers (<[a := total]> (peer_buffers s)) s))
  /\ (fst (on_message a data now s) = Ok tt ->
      peer_buffers (snd (on_message a data now s)) !! a
      = Some (drop (length total - length total mod PACKET_SIZE) total)).
Proof.
  intros total.
  pose proof (on_message_unfold a data now s) as E. fold total in E.
  rewrite !E. split.
  - intros Hl. unfold bind at 1. rewrite handle_loop_short by (cbn; lia).
    unfold modify. cbv beta iota.
    rewrite read_all_at, drop_0. destruct s; cbn. by rewrite insert_insert_eq.
  - unfold bind at 1 2.
    destruct (handle_loop (S (length total)) a now (BytesIO.mk_bio total 0)
                (set_buffers (<[a:=total]> (peer_buffers s)) s)) as [[bs|e] s3] eqn:Hrun;
      unfold modify; cbn [fst snd peer_buffers set_buffers]; [|discriminate].
    intros _. rewrite lookup_insert_eq.
    destruct (handle_loop_rest _ _ _ _ _ _ _ _ Hrun) as (k & -> & H1 & H2);
      [unfold PACKET_SIZE; lia|lia|].
    rewrite read_all_at. do 2 f_equal.
    pose proof (Nat.div_mod_eq (length total) PACKET_SIZE).
    pose proof (Nat.mod_upper_bound (length total) PACKET_SIZE).
    unfold PACKET_SIZE in *. lia.
Qed.

Lemma record_announce_lookup (host : ip) (name : hname) (now : Z) (s : state) :
  peer_inv s ->
  let s' := snd (record_announce host name now s) in
  ip_to_host s' !! host = Some name
  /\ host ∈ default ∅ (host_to_ips s' !! name)
  /\ peer_last_announce_time s' !! host = Some now
  /\ peer_buffers s' = peer_buffers s
  /\ (forall n, ip_to_host s !! host = Some n -> n <> name ->
        host ∉ default ∅ (host_to_ips s' !! n)).
Proof.
  intros [Hfw Hdom] s'. unfold s'.
  unfold record_announce, bind, modify, get, hti_add; simpl.
  destruct (ip_to_host s !! host) as [old|] eqn:Hold.
  - unfold hti_remove; simpl.
    rewrite decide_True by (apply Hfw; done). simpl.
    rewrite !lookup_insert_eq. split; [done|]. split; [simpl; set_solver|].
    split; [done|]. split; [done|].
    intros n [= <-] Hne. rewrite lookup_insert_ne by done. rewrite lookup_insert_eq.
    simpl. set_solver.
  - simpl. rewrite !lookup_insert_eq. split; [done|]. split; [simpl; set_solver|].
    split; [done|]. split; [done|]. intros n [=].
Qed.

Lemma serialize_printable (h : list Z) :
  Forall printable h -> (length h <= PACKET_SIZE - 1)%nat ->
  Announce.serialize (Announce.mk (HStr h))
  = Ok (1 :: h ++ replicate (PACKET_SIZE - 1 - length h) 0).
Proof.
  intros Hp Hl. unfold Announce.serialize. cbn [Announce.hostname].
  rewrite encode_ascii_printable by done.
  destruct (Nat.ltb_spec (PACKET_SIZE - 1) (length h)); [lia|reflexivity].
Qed.

(** An [Announce] datagram of a printable hostname [h] (1 to 510
    bytes), received from [a] with an empty buffer, is recorded: the call
    succeeds, [query_ip] answers [h] for [a], [a] is among the addresses of
    [h] and no longer among those of its previous name, its announce time
    is [now], and its buffer is left empty. *)
Theorem on_message_announce (a : ip) (h : list Z) (pkt : bytes) (now : Z) (s : state) :
  peer_inv s -> (0 < length h <= 510)%nat -> Forall printable h ->
  default [] (peer_buffers s !! a) = [] ->
  Announce.serialize (Announce.mk (HStr h)) = Ok pkt ->
  let s' := snd (on_message a pkt now s) in
  fst (on_message a pkt now s) = Ok tt
  /\ query_ip s' a = Some (HStr h)
  /\ a ∈ default ∅ (host_to_ips s' !! HStr h)
  /\ peer_last_announce_time s' !! a = Some now
  /\ peer_buffers s' !! a = Some []
  /\ (forall n, ip_to_host s !! a = Some n -> n <> HStr h ->
        a ∉ default ∅ (host_to_ips s' !! n)).
Proof.
  intros Hinv Hlen Hp Hbuf Hser s'. unfold s'. clear s'.
  pose proof (announce_roundtrip_short h Hlen Hp) as Hrt.
  rewrite Hser in Hrt. cbn [Control.bind_r] in Hrt.
  rewrite serialize_printable in Hser by (done || (unfold PACKET_SIZE; lia)).
  injection Hser as Hpkt.
  assert (Hpl : length pkt = PACKET_SIZE).
  { rewrite <- Hpkt. cbn. rewrite length_app, length_replicate. unfold PACKET_SIZE in *. lia. }
  assert (Hhd : exists r, pkt = 1 :: r) by (rewrite <- Hpkt; by eexists).
  (* the buffer after the datagram is appended *)
  set (s2 := set_buffers (<[a := pkt]> (peer_buffers s)) s).
  pose proof (on_message_unfold a pkt now s) as E. cbv zeta in E.
  rewrite Hbuf, app_nil_l in E. fold s2 in E.
  assert (Hinv2 : peer_inv s2) by (apply set_buffer_inv, Hinv).
  assert (Hb2 : is_Some (peer_buffers s2 !! a)) by (unfold s2; cbn; by rewrite lookup_insert_eq).
  destruct (record_announce_inv a (HStr h) now s2 Hinv2 Hb2) as (Hok & _ & _).
  destruct (record_announce_lookup a (HStr h) now s2 Hinv2) as (L1 & L2 & L3 & L4 & L5).
  destruct (record_announce a (HStr h) now s2) as [r3 s3] eqn:Hra.
  cbn [fst snd] in Hok, L1, L2, L3, L4, L5. subst r3.
  assert (Hres : on_message a pkt now s = (Ok tt, set_buffers (<[a := []]> (peer_buffers s3)) s3)).
  { rewrite E. unfold bind at 1.
    rewrite handle_loop_long by (rewrite Hpl; lia). cbv zeta.
    rewrite drop_0, take_ge by (rewrite Hpl; lia).
    destruct Hhd as [r Hr]. assert (Hparse : Announce.parses pkt = true) by (rewrite Hr; done).
    rewrite Hparse. cbn [negb]. unfold bind at 1, lift. rewrite Hrt. cbn [Announce.hostname].
    unfold bind at 1. rewrite Hra.
    replace (length pkt) with (S 511) by (rewrite Hpl; reflexivity).
    rewrite handle_loop_short by (rewrite Hpl; unfold PACKET_SIZE; lia).
    unfold modify. rewrite read_all_at, drop_ge by (rewrite Hpl; unfold PACKET_SIZE; lia). done. }
  rewrite Hres. cbn [fst snd peer_buffers set_buffers ip_to_host host_to_ips
                     peer_last_announce_time].
  split; [done|]. unfold query_ip. cbn. split; [done|]. split; [done|]. split; [done|].
  split; [by rewrite lookup_insert_eq|].
  intros n Hn Hne. apply L5; [|done]. unfold s2. done.
Qed.

Lemma on_message_keeps_partial_witness :
  on_message [10;0;0;1] [1;104] 0 (init [109])
    = (Ok tt, set_buffers (<[[10;0;0;1] := [1;104]]> ∅) (init [109]))
  /\ peer_buffers (snd (on_message [10;0;0;1] ((1 :: 104 :: replicate 510 0) ++ [7;8]) 0
                          (init [109]))) !! [10;0;0;1] = Some [7;8].
Proof.
  split.
  - apply (proj1 (on_message_keeps_partial [10;0;0;1] [1;104] 0 (init [109]))).
    vm_compute. lia.
  - rewrite (proj2 (on_message_keeps_partial [10;0;0;1] ((1 :: 104 :: replicate 510 0) ++ [7;8])
                                             0 (init [109]))) by (vm_compute; reflexivity).
    vm_compute. reflexivity.
Defined.

Lemma on_message_announce_witness :
  fst (on_message [10;0;0;1] (1 :: 104 :: replicate 510 0) 0 (init [109])) = Ok tt
  /\ query_ip (snd (on_message [10;0;0;1] (1 :: 104 :: replicate 510 0) 0 (init [109])))
       [10;0;0;1] = Some (HStr [104]).
Proof.
  destruct (on_message_announce [10;0;0;1] [104] (1 :: 104 :: replicate 510 0) 0 (init [109])
              (init_inv [109]) ltac:(cbn; lia) ltac:(repeat constructor; unfold printable; lia)
              eq_refl ltac:(vm_compute; reflexivity)) as (H1 & H2 & _).
  split; [exact H1|exact H2].
Defined.

End NetMessageFacts.


Module QueryFacts.
Import NetProto NetQuery PeerMapFacts TimeoutFacts.

(** A state with one peer [10.0.0.1] named [h]. *)
Definition one_peer : state :=
  mk_state (HStr [109]) 0 ∅ (<[HStr [104] := {[[10;0;0;1]]}]> ∅)
           (<[[10;0;0;1] := HStr [104]]> ∅) ∅ [].


Section Sendto.
Context {sock : Type}.
Variable sendto : sock -> bytes -> nat * sock.

(** When every call of [sendto] on a non-empty buffer takes at least one
    byte, the loop of [sendto_all] ends within [len(buffer)] calls, and
    the bytes taken by the calls, in order, make up the buffer. *)
Theorem sendto_all_loop_progress (fuel : nat) (buffer : bytes) (so : sock) :
  (forall so b, b <> [] -> (0 < fst (sendto so b))%nat) ->
  (length buffer <= fuel)%nat ->
  exists calls so', sendto_all_loop sendto fuel buffer so = Some (calls, so')
    /\ concat (map (fun '(b, n) => take n b) calls) = buffer
    /\ (length calls <= length buffer)%nat.
Proof.
  intros Hpos. revert buffer so. induction fuel as [|fuel IH]; intros buffer so Hl.
  - destruct buffer; [|cbn in Hl; lia]. by exists [], so.
  - destruct buffer as [|x r]; [by exists [], so|].
    cbn [sendto_all_loop].
    pose proof (Hpos so (x :: r) ltac:(done)) as Hp.
    destruct (sendto so (x :: r)) as [sent so1] eqn:Hs. cbn [fst] in Hp.
    destruct (IH (drop sent (x :: r)) so1) as (calls & so2 & -> & Hc & Hlen);
      [rewrite length_drop; cbn in *; lia|].
    exists ((x :: r, sent) :: calls), so2. split; [done|]. split.
    + cbn [map concat]. rewrite Hc. apply take_drop.
    + rewrite length_drop in Hlen. cbn in *. lia.
Qed.

(** A socket whose [sendto] always returns 0 makes [sendto_all] loop
    forever on a non-empty buffer: no amount of fuel ends it. *)
Theorem sendto_all_loop_zero (fuel : nat) (buffer : bytes) (so : sock) :
  (forall so b, fst (sendto so b) = 0%nat) -> buffer <> [] ->
  sendto_all_loop sendto fuel buffer so = None.
Proof.
  intros Hz. revert so. induction fuel as [|fuel IH]; intros so Hne;
    (destruct buffer as [|x r]; [done|]); cbn [sendto_all_loop]; [done|].
  pose proof (Hz so (x :: r)) as H0.
  destruct (sendto so (x :: r)) as [sent so1]. cbn [fst] in H0. subst sent.
  rewrite drop_0, IH by done. done.
Qed.

(** A socket that takes the whole buffer (a UDP datagram) gets exactly
    one [sendto] call, with the whole buffer. *)
Theorem sendto_all_loop_whole (fuel : nat) (buffer : bytes) (so : sock) :
  (forall so b, fst (sendto so b) = length b) -> buffer <> [] -> (1 <= fuel)%nat ->
  sendto_all_loop sendto fuel buffer so
  = Some ([(buffer, length buffer)], snd (sendto so buffer)).
Proof.
  intros Hw Hne Hf. destruct fuel as [|fuel]; [lia|].
  destruct buffer as [|x r]; [done|]. cbn [sendto_all_loop].
  pose proof (Hw so (x :: r)) as H0.
  destruct (sendto so (x :: r)) as [sent so1]. cbn [fst snd] in *. subst sent.
  rewrite drop_ge by done. destruct fuel; done.
Qed.
End Sendto.

(** [get_time_until_next_announce] is 0 exactly when an
    [on_announce_timeout] at the same time is not throttled; while it is
    positive, that call returns and changes nothing; it lies in
    [0, ANNOUNCE_ALARM] when the clock has not gone back. *)
Theorem get_time_until_spec (now t2 t3 : Z) (net : send_outcome) (s : state) :
  (get_time_until_next_announce now s = 0
     <-> ANNOUNCE_ALARM <= now - last_announce_time s)
  /\ (0 < get_time_until_next_announce now s ->
        on_announce_timeout now t2 t3 net s = (Ok tt, s))
  /\ (last_announce_time s <= now ->
        0 <= get_time_until_next_announce now s <= ANNOUNCE_ALARM).
Proof.
  unfold get_time_until_next_announce. cbv zeta. split; [|split].
  - unfold ANNOUNCE_ALARM. lia.
  - intros H. apply on_announce_timeout_throttled. unfold ANNOUNCE_ALARM in *. lia.
  - intros H. unfold ANNOUNCE_ALARM. lia.
Qed.

(** Right after an [on_announce_timeout] that fires, at the clock
    reading it stored, the time until the next announce is the full
    [ANNOUNCE_ALARM]. *)
Theorem get_time_after_fire (t1 t2 t3 : Z) (net : send_outcome) (s : state) :
  ANNOUNCE_ALARM <= t1 - last_announce_time s ->
  get_time_until_next_announce t2 (snd (on_announce_timeout t1 t2 t3 net s))
  = ANNOUNCE_ALARM.
Proof.
  intros Hge. rewrite on_announce_timeout_fires by done.
  unfold get_time_until_next_announce.
  assert (last_announce_time (snd (match Announce.serialize (Announce.mk (hostname s)) with
    | Raise e => (Raise e, set_last t2 s)
    | Ok pkt => ttl_sweep t3 (match net with
                      | SendOk => set_sent (sent s ++ [pkt]) (set_last t2 s)
                      | SendOSError => set_last t2 s
                      end)
    end)) = t2) as ->.
  { destruct (Announce.serialize _) as [pkt|e]; [|done].
    destruct net.
    - destruct (ttl_sweep_shrinks t3 (set_sent (sent s ++ [pkt]) (set_last t2 s)))
        as (_ & _ & _ & _ & Hl & _). rewrite Hl. done.
    - destruct (ttl_sweep_shrinks t3 (set_last t2 s)) as (_ & _ & _ & _ & Hl & _).
      rewrite Hl. done. }
  unfold ANNOUNCE_ALARM. lia.
Qed.

(** [query_host] returns the addresses stored for the name, [[]] for an
    unknown one; the empty set the [defaultdict] stores for an unknown name
    changes neither [get_host_ip_map] nor the peer-map invariant. *)
Theorem query_host_spec (n : hname) (s : state) :
  fst (query_host n s) = Ok (elements (default ∅ (host_to_ips s !! n)))
  /\ get_host_ip_map (snd (query_host n s)) = get_host_ip_map s
  /\ (peer_inv s -> peer_inv (snd (query_host n s))).
Proof.
  unfold query_host. destruct (host_to_ips s !! n) as [ips|] eqn:Hn; [done|].
  cbn [fst snd default]. split; [done|]. split.
  - unfold get_host_ip_map; cbn [host_to_ips set_hti].
    apply map_eq. intros k. rewrite !lookup_omap, lookup_insert.
    case_decide; [subst; rewrite Hn; cbn; by rewrite decide_True|done].
  - intros [Hfw Hdom]. split; [|done]. intros a k Hak. cbn [host_to_ips set_hti].
    rewrite lookup_insert. case_decide as Hk; [|by apply Hfw]. subst k.
    specialize (Hfw a n Hak). rewrite Hn in Hfw. cbn in Hfw. set_solver.
Qed.

(** Under the peer-map invariant, an address [query_ip] names is listed
    by [query_host] and by [get_host_ip_map] under that name, and
    [get_host_ip_map] lists no name with no addresses. *)
Theorem query_ip_host_map (a : ip) (n : hname) (s : state) :
  peer_inv s -> query_ip s a = Some n ->
  (exists l, query_host n s = (Ok l, s) /\ a ∈ l)
  /\ (exists l, get_host_ip_map s !! n = Some l /\ a ∈ l)
  /\ (forall k l, get_host_ip_map s !! k = Some l -> l <> []).
Proof.
  intros [Hfw _] Hq. unfold query_ip in Hq. specialize (Hfw a n Hq).
  split; [|split].
  - unfold query_host. destruct (host_to_ips s !! n) as [ips|]; cbn in Hfw; [|set_solver].
    eexists; split; [done|]. by apply elem_of_elements.
  - unfold get_host_ip_map. rewrite lookup_omap.
    destruct (host_to_ips s !! n) as [ips|]; cbn in Hfw |- *; [|set_solver].
    rewrite decide_False by set_solver. eexists; split; [done|]. by apply elem_of_elements.
  - intros k l. unfold get_host_ip_map. rewrite lookup_omap.
    destruct (host_to_ips s !! k) as [ips|]; cbn; [|done].
    case_decide as He; [done|]. intros [= <-] Hnil.
    apply He. apply elements_empty_inv in Hnil. by apply leibniz_equiv.
Qed.

Lemma one_peer_inv : peer_inv one_peer.
Proof.
  split.
  - intros a n H. cbn in H |- *. rewrite lookup_insert in H. case_decide as Ha; [|done].
    injection H as <-. subst a. rewrite lookup_insert_eq. cbn. set_solver.
  - intros a [t Ht]. cbn in Ht. done.
Qed.

Lemma sendto_all_loop_progress_witness :
  exists calls so', sendto_all_loop (fun so b => (Nat.min 3 (length b), S so)) 5
                      [1;2;3;4;5] 0%nat = Some (calls, so')
    /\ concat (map (fun '(b, n) => take n b) calls) = [1;2;3;4;5]
    /\ (length calls <= 5)%nat.
Proof.
  apply (sendto_all_loop_progress (fun so b => (Nat.min 3 (length b), S so)) 5 [1;2;3;4;5] 0%nat).
  - intros so b Hb. destruct b; [done|]. cbn. lia.
  - cbn. lia.
Defined.

Lemma sendto_all_loop_zero_witness :
  sendto_all_loop (fun (so : unit) b => (0%nat, so)) 7 [1] tt = None.
Proof.
  apply (sendto_all_loop_zero (fun (so : unit) b => (0%nat, so)) 7 [1] tt);
    [intros; reflexivity|done].
Defined.

Lemma sendto_all_loop_whole_witness :
  sendto_all_loop (fun so b => (length b, S so)) 4 [1;2] 0%nat = Some ([([1;2], 2%nat)], 1%nat).
Proof.
  apply (sendto_all_loop_whole (fun so b => (length b, S so)) 4 [1;2] 0%nat);
    [intros; reflexivity|done|lia].
Defined.

Lemma get_time_until_spec_witness :
  on_announce_timeout 5 6 7 SendOk (init [104]) = (Ok tt, init [104])
  /\ 0 <= get_time_until_next_announce 5 (init [104]) <= ANNOUNCE_ALARM.
Proof.
  destruct (get_time_until_spec 5 6 7 SendOk (init [104])) as (_ & H2 & H3). split.
  - apply H2. vm_compute. reflexivity.
  - apply H3. cbn. lia.
Defined.

Lemma get_time_after_fire_witness :
  get_time_until_next_announce 21 (snd (on_announce_timeout 20 21 22 SendOSError (init [104])))
  = ANNOUNCE_ALARM.
Proof.
  apply (get_time_after_fire 20 21 22 SendOSError (init [104])). cbn. unfold ANNOUNCE_ALARM. lia.
Defined.

Lemma query_host_spec_witness :
  peer_inv (snd (query_host (HStr [1]) (init [104]))).
Proof.
  apply (proj2 (proj2 (query_host_spec (HStr [1]) (init [104])))). apply init_inv.
Defined.

Lemma query_ip_host_map_witness :
  exists l, get_host_ip_map one_peer !! HStr [104] = Some l /\ [10;0;0;1] ∈ l.
Proof.
  apply (query_ip_host_map [10;0;0;1] (HStr [104]) one_peer one_peer_inv).
  vm_compute. reflexivity.
Defined.
End QueryFacts.

Module SweepFacts.
Import NetProto PeerMapFacts TimeoutFacts.

(** A state with two announced peers: [10.0.0.1] at time 5, [10.0.0.2]
    at time 0. *)
Definition two_peers : state :=
  mk_state (HStr [109]) 0 (<[[10;0;0;1] := 5]> (<[[10;0;0;2] := 0]> ∅))
           (<[HStr [104] := {[[10;0;0;1]]}]> (<[HStr [105] := {[[10;0;0;2]]}]> ∅))
           (<[[10;0;0;1] := HStr [104]]> (<[[10;0;0;2] := HStr [105]]> ∅))
           (<[[10;0;0;1] := []]> (<[[10;0;0;2] := []]> ∅)) [].

(** [s'] has the same entries as [s] for the peer [q]. *)
Definition same_at (q : ip) (s s' : state) : Prop :=
  peer_last_announce_time s' !! q = peer_last_announce_time s !! q
  /\ peer_buffers s' !! q = peer_buffers s !! q
  /\ ip_to_host s' !! q = ip_to_host s !! q
  /\ (forall n, q ∈ default ∅ (host_to_ips s' !! n) <-> q ∈ default ∅ (host_to_ips s !! n)).

Lemma same_at_refl (q : ip) (s : state) : same_at q s s.
Proof. repeat split; auto. Qed.

Lemma same_at_trans (q : ip) (s1 s2 s3 : state) :
  same_at q s1 s2 -> same_at q s2 s3 -> same_at q s1 s3.
Proof.
  intros (A1 & B1 & C1 & D1) (A2 & B2 & C2 & D2).
  repeat split; try congruence; intros H; [apply D1, D2 | apply D2, D1]; done.
Qed.

Lemma bind_same_at {A B} (q : ip) (m : M state A) (k : A -> M state B) (s : state) :
  (forall s, same_at q s (snd (m s))) -> (forall a s, same_at q s (snd (k a s))) ->
  same_at q s (snd (bind m k s)).
Proof.
  intros Hm Hk. unfold bind. specialize (Hm s).
  destruct (m s) as [[a|e] s1]; simpl in *; [|done].
  eapply same_at_trans; [apply Hm | apply Hk].
Qed.

Lemma drop_peer_same_at (peer q : ip) (s : state) :
  q <> peer -> same_at q s (snd (drop_peer peer s)).
Proof.
  intros Hq. unfold drop_peer.
  apply bind_same_at; [|intros _ s1; apply bind_same_at; [|intros _ s2;
    apply bind_same_at; [|intros n s3; apply bind_same_at; [|intros _ s4]]]].
  - intros s0. unfold del_plat. destruct (peer_last_announce_time s0 !! peer);
      [|apply same_at_refl].
    repeat split; try done. cbn. by rewrite lookup_delete_ne.
  - intros s0. unfold del_buffers. destruct (peer_buffers s0 !! peer);
      [|apply same_at_refl].
    repeat split; try done. cbn. by rewrite lookup_delete_ne.
  - intros s0. unfold get_ith. destruct (ip_to_host s0 !! peer); apply same_at_refl.
  - intros s0. unfold del_ith. destruct (ip_to_host s0 !! peer);
      [|apply same_at_refl].
    repeat split; try done. cbn. by rewrite lookup_delete_ne.
  - unfold hti_remove. case_decide; (repeat split; try done); cbn;
      rewrite lookup_insert; case_decide; subst; cbn; try done; set_solver.
Qed.

Lemma drop_peers_same_at (l : list ip) (q : ip) (s : state) :
  q ∉ l -> same_at q s (snd (drop_peers l s)).
Proof.
  revert s. induction l as [|p l IH]; intros s Hq; cbn [drop_peers]; [apply same_at_refl|].
  apply not_elem_of_cons in Hq as [Hqp Hq].
  apply bind_same_at; [intros s0; by apply drop_peer_same_at | intros _ s0; by apply IH].
Qed.

(** A peer whose last announce is at most [ANNOUNCE_TTL] before the
    sweep's clock reading [t3] keeps its announce time, buffer and name
    through [on_announce_timeout], and stays in exactly the same address
    sets. *)
Theorem on_announce_timeout_keeps_live (t1 t2 t3 : Z) (net : send_outcome)
    (s : state) (q : ip) (t : Z) :
  peer_last_announce_time s !! q = Some t -> t3 - t <= ANNOUNCE_TTL ->
  same_at q s (snd (on_announce_timeout t1 t2 t3 net s)).
Proof.
  intros Ht Hlive.
  destruct (Z.lt_ge_cases (t1 - last_announce_time s) ANNOUNCE_ALARM) as [Hlt|Hge].
  - rewrite on_announce_timeout_throttled by done. apply same_at_refl.
  - rewrite on_announce_timeout_fires by done.
    assert (Hsw : forall s', peer_last_announce_time s' = peer_last_announce_time s ->
                    same_at q s' (snd (ttl_sweep t3 s'))).
    { intros s' Hp. unfold ttl_sweep, bind, get. cbn [fst snd].
      apply drop_peers_same_at. rewrite expired_spec. intros (t' & Ht' & Hlt).
      rewrite Hp, Ht in Ht'. injection Ht' as <-. lia. }
    destruct (Announce.serialize _) as [pkt|e]; [|done].
    destruct net; (eapply same_at_trans; [|apply Hsw; done]); done.
Qed.

Lemma on_announce_timeout_keeps_live_witness :
  peer_last_announce_time (snd (on_announce_timeout 33 34 34 SendOk two_peers)) !! [10;0;0;1]
    = Some 5
  /\ ip_to_host (snd (on_announce_timeout 33 34 34 SendOk two_peers)) !! [10;0;0;2] = None.
Proof.
  destruct (on_announce_timeout_keeps_live 33 34 34 SendOk two_peers [10;0;0;1] 5
              eq_refl ltac:(unfold ANNOUNCE_TTL; lia)) as (H & _).
  split; [rewrite H; reflexivity | vm_compute; reflexivity].
Defined.
End SweepFacts.

(** ** The control messages: serialize against get_message_class and unserialize *)
Module MessageFacts.
Import Control.

Section Messages.
Variable json_dumps : pyval -> result (list Z).
Variable native : byte_order.

(** [all_r f l] succeeds exactly when [f] succeeds on every element. *)
Lemma all_r_ok {A} (f : A -> result unit) (l : list A) :
  all_r f l = Ok tt <-> Forall (fun x => f x = Ok tt) l.
Proof.
  induction l as [|x l IH]; cbn; [split; done|].
  rewrite Forall_cons, <- IH. unfold bind_r.
  destruct (f x) as [[]|e]; split; try done; intros [? ?]; done.
Qed.

(** The dictionary each [serialize] passes to [length_encode_json] is
    recognised by [get_message_class] and read back by [unserialize] as
    the same message: always for [Host] (whose [serialize] runs the same
    hostname check as [unserialize]), [GetAll] and [Quit]; for [IP] and
    [NameIPMapping], whose [serialize] checks nothing, exactly when every
    address passes [verify_ipv4_address] (and, for [NameIPMapping], every
    name passes the hostname check and every value can be iterated). *)
Theorem message_dict_roundtrip :
  (forall m frame, serialize json_dumps native m = Ok frame ->
     m = GetAll \/ m = Quit \/ (exists h, m = Host h) ->
     exists data, length_encode_json json_dumps native data = Ok frame
       /\ bind_r (get_message_class data) (fun c => unserialize c data) = Ok m)
  /\ (forall l frame, serialize json_dumps native (IP (PList l)) = Ok frame ->
     exists data, length_encode_json json_dumps native data = Ok frame
       /\ (bind_r (get_message_class data) (fun c => unserialize c data) = Ok (IP (PList l))
           <-> Forall (fun a => verify_ipv4_address a = Ok tt) l))
  /\ (forall d frame, serialize json_dumps native (NameIPMapping (PDict d)) = Ok frame ->
     exists data, length_encode_json json_dumps native data = Ok frame
       /\ (bind_r (get_message_class data) (fun c => unserialize c data)
             = Ok (NameIPMapping (PDict d))
           <-> Forall (fun kv => verify_hostname_value (PStr kv.1) = Ok tt
                         /\ exists ips, iterate kv.2 = Ok ips
                              /\ Forall (fun a => verify_ipv4_address a = Ok tt) ips) d)).
Proof.
  split; [|split].
  - intros m frame Hs Hm. destruct m as [h| | | |]; try (by destruct Hm as [?|[?|[? ?]]]).
    + cbn [serialize] in Hs.
      destruct (match h with PNone => Ok tt | _ => verify_hostname_value h end) as [[]|e] eqn:Hv;
        [|done]. cbn [bind_r] in Hs.
      eexists; split; [exact Hs|].
      vm_compute get_message_class. cbn [bind_r]. unfold unserialize.
      vm_compute dget. cbn [bind_r]. vm_compute is_lit. cbn [negb].
      destruct h; try done; cbn [bind_r]; rewrite Hv; done.
    + eexists; split; [exact Hs|]. reflexivity.
    + eexists; split; [exact Hs|]. reflexivity.
  - intros l frame Hs. eexists; split; [exact Hs|].
    vm_compute get_message_class. cbn [bind_r]. unfold unserialize.
    vm_compute dget. cbn [bind_r]. vm_compute is_lit. cbn [negb iterate bind_r].
    rewrite <- all_r_ok. destruct (all_r verify_ipv4_address l) as [[]|e]; cbn; done.
  - intros d frame Hs. eexists; split; [exact Hs|].
    vm_compute get_message_class. cbn [bind_r]. unfold unserialize.
    vm_compute dget. cbn [bind_r]. vm_compute is_lit. cbn [negb].
    transitivity (all_r (fun kv : list Z * pyval =>
        bind_r (verify_hostname_value (PStr kv.1))
          (fun _ => bind_r (iterate kv.2) (fun ips => all_r verify_ipv4_address ips))) d = Ok tt).
    { destruct (all_r _ d) as [[]|e]; cbn; done. }
    rewrite all_r_ok. apply Forall_iff. intros [k v]. cbn [fst snd].
    unfold bind_r. destruct (verify_hostname_value (PStr k)) as [[]|e].
    + destruct (iterate v) as [ips|e].
      * rewrite all_r_ok. split; [intros H; split; [done|]; by exists ips|].
        intros [_ (ips' & [= <-] & H)]. done.
      * split; [done|]. intros [_ (ips' & ? & _)]. done.
    + split; [done|]. intros [? _]. done.
Qed.
End Messages.

Lemma message_dict_roundtrip_witness :
  (exists data, length_encode_json JsonModel.dumps LittleEndian data
                  = serialize JsonModel.dumps LittleEndian Quit
     /\ bind_r (get_message_class data) (fun c => unserialize c data) = Ok Quit)
  /\ (exists data, length_encode_json JsonModel.dumps LittleEndian data
                  = serialize JsonModel.dumps LittleEndian (IP (PList [PStr (lit "10.0.0.1")]))
     /\ bind_r (get_message_class data) (fun c => unserialize c data)
        = Ok (IP (PList [PStr (lit "10.0.0.1")]))).
Proof.
  destruct (message_dict_roundtrip JsonModel.dumps LittleEndian) as (H1 & H2 & _).
  split.
  - destruct (H1 Quit _ eq_refl ltac:(right; left; reflexivity)) as (data & Hd & Hq).
    exists data. rewrite Hd. split; [reflexivity|exact Hq].
  - destruct (H2 [PStr (lit "10.0.0.1")] _ eq_refl) as (data & Hd & Hq).
    exists data. rewrite Hd. split; [reflexivity|].
    apply Hq. repeat constructor.
Defined.
End MessageFacts.

(** ** verify_ipv4_address *)
Module AddressFacts.
Import Control.

(** [int(str(n)) == n] and [str(n)] has no dot. *)
Definition octet_ok (n : Z) : bool :=
  match py_int (JsonModel.dump_int n) with Ok m => m =? n | Raise _ => false end
  && negb (existsb (Z.eqb 46) (JsonModel.dump_int n)).


(** [text.split('.')] has one more piece than [text] has dots. *)
Lemma split_on_length (sep : Z) (t : list Z) :
  length (split_on sep t) = S (count_occ Z.eq_dec t sep).
Proof.
  induction t as [|c t IH]; [done|]. cbn [split_on count_occ].
  destruct (Z.eqb_spec c sep) as [->|Hne].
  - destruct (Z.eq_dec sep sep); [|done]. cbn. by rewrite IH.
  - destruct (Z.eq_dec c sep); [done|].
    destruct (split_on sep t); cbn in *; lia.
Qed.

Lemma split_on_no_sep (sep : Z) (x : list Z) :
  sep ∉ x -> split_on sep x = [x].
Proof.
  induction x as [|c x IH]; intros Hx; [done|].
  apply not_elem_of_cons in Hx as [Hc Hx]. cbn.
  rewrite (proj2 (Z.eqb_neq c sep)) by congruence. by rewrite IH.
Qed.

Lemma split_on_app (sep : Z) (x r : list Z) :
  sep ∉ x -> split_on sep (x ++ sep :: r) = x :: split_on sep r.
Proof.
  induction x as [|c x IH]; intros Hx; cbn.
  - by rewrite Z.eqb_refl.
  - apply not_elem_of_cons in Hx as [Hc Hx].
    rewrite (proj2 (Z.eqb_neq c sep)) by congruence. by rewrite IH.
Qed.

Lemma octets_ok : forallb (fun k => octet_ok (Z.of_nat k)) (seq 0 256) = true.
Proof. vm_compute. reflexivity. Qed.

Lemma dump_int_octet (n : Z) :
  0 <= n <= 255 -> py_int (JsonModel.dump_int n) = Ok n /\ 46 ∉ JsonModel.dump_int n.
Proof.
  intros Hn. pose proof octets_ok as H. rewrite forallb_forall in H.
  specialize (H (Z.to_nat n) ltac:(apply in_seq; lia)). rewrite Z2Nat.id in H by lia.
  unfold octet_ok in H. apply andb_prop in H as [H1 H2].
  destruct (py_int (JsonModel.dump_int n)) as [m|e]; [|done].
  apply Z.eqb_eq in H1. subst m. split; [done|].
  intros Hin. apply negb_true_iff in H2.
  assert (existsb (Z.eqb 46) (JsonModel.dump_int n) = true) as Ht.
  { apply existsb_exists. exists 46. split; [by apply list_elem_of_In|apply Z.eqb_refl]. }
  congruence.
Qed.

(** [verify_ipv4_address] accepts the dotted decimal text
    [str(a) + '.' + str(b) + '.' + str(c) + '.' + str(d)] of any four
    octets in [0, 255], and raises [ValueError] on any text whose number
    of dots is not 3. *)
Theorem verify_ipv4_dotted (a b c d : Z) (t : list Z) :
  (0 <= a <= 255 -> 0 <= b <= 255 -> 0 <= c <= 255 -> 0 <= d <= 255 ->
     verify_ipv4_address
       (PStr (JsonModel.join [46] (map JsonModel.dump_int [a; b; c; d]))) = Ok tt)
  /\ (count_occ Z.eq_dec t 46 <> 3%nat -> verify_ipv4_address (PStr t) = Raise ValueError).
Proof.
  split.
  - intros Ha Hb Hc Hd.
    destruct (dump_int_octet a Ha) as [Pa Na], (dump_int_octet b Hb) as [Pb Nb],
             (dump_int_octet c Hc) as [Pc Nc], (dump_int_octet d Hd) as [Pd Nd].
    unfold verify_ipv4_address. cbn [map JsonModel.join app].
    rewrite !split_on_app, split_on_no_sep by done. cbn [length Nat.eqb negb all_r].
    rewrite Pa, Pb, Pc, Pd. cbn [bind_r].
    rewrite !(proj2 (Z.ltb_ge _ 0)), !(proj2 (Z.ltb_ge 255 _)) by lia. reflexivity.
  - intros Hn. unfold verify_ipv4_address. rewrite split_on_length.
    destruct (Nat.eqb_spec (S (count_occ Z.eq_dec t 46)) 4); [lia|done].
Qed.

Lemma verify_ipv4_dotted_witness :
  verify_ipv4_address (PStr (JsonModel.join [46] (map JsonModel.dump_int [192; 168; 0; 255])))
    = Ok tt
  /\ verify_ipv4_address (PStr (lit "10.0.1")) = Raise ValueError.
Proof.
  split.
  - apply (proj1 (verify_ipv4_dotted 192 168 0 255 [])); lia.
  - apply (proj2 (verify_ipv4_dotted 0 0 0 0 (lit "10.0.1"))). vm_compute. discriminate.
Defined.
End AddressFacts.
